(** * BinarySlicer: the decoding core of [Binary Slicer.py]

    A shallow embedding of the format-matching and bit/parity decoding
    engine (input normalisation, format detection, field extraction,
    parity evaluation, slice selection) together with the Python
    primitives it relies on, of the format management around it
    (merging, deleting and copying formats, [Modules/formats_io.py]),
    and of the parity check of the earlier [Binary SlicerCopy.py].

    Conventions.
    - A Python [str] is a [list ascii]: the strings handled here are made
      of code points below 256.
    - A Python [int] is a [Z].
    - A Python [dict] is an insertion-ordered association list with
      pairwise distinct keys ([dict_set] keeps the position of a key that
      is already present).
    - A raised exception is the [Raise] case of [res]. *)

From Stdlib Require Import ZArith Lia Bool Ascii String.
From Stdlib Require Import HexadecimalString HexadecimalPos HexadecimalN.
From stdpp Require Import base list strings.

Local Open Scope Z_scope.
Local Open Scope list_scope.

(** ** Python primitives *)

Module Py.

Abbreviation pystr := (list ascii).

(** A string literal. *)
Definition str (s : string) : pystr := list_ascii_of_string s.

Definition len {A} (s : list A) : Z := Z.of_nat (length s).

Definition code (c : ascii) : Z := Z.of_N (N_of_ascii c).

(** *** Exceptions *)

Inductive exn := ValueError.

Inductive res (A : Type) :=
| Ok (a : A)
| Raise (e : exn).
Arguments Ok {A} a.
Arguments Raise {A} e.

Definition bind {A B} (m : res A) (k : A -> res B) : res B :=
  match m with
  | Ok a => k a
  | Raise e => Raise e
  end.

(** *** Slicing: [s[lo:hi]] with Python's index adjustment *)

Definition adjust_index (n i : Z) : Z :=
  if i <? 0 then Z.max (i + n) 0 else Z.min i n.

Definition slice {A} (s : list A) (lo hi : option Z) : list A :=
  let n := len s in
  let lo' := match lo with None => 0 | Some i => adjust_index n i end in
  let hi' := match hi with None => n | Some i => adjust_index n i end in
  take (Z.to_nat (hi' - lo')) (drop (Z.to_nat lo') s).

(** *** [str] methods *)

(** [str.isspace] on one character, for code points below 256. *)
Definition is_space (c : ascii) : bool :=
  let n := code c in
  ((9 <=? n) && (n <=? 13)) || ((28 <=? n) && (n <=? 32))
  || (n =? 133) || (n =? 160).

Fixpoint lstrip (s : pystr) : pystr :=
  match s with
  | [] => []
  | c :: t => if is_space c then lstrip t else s
  end.

Definition rstrip (s : pystr) : pystr := rev (lstrip (rev s)).

Definition strip (s : pystr) : pystr := rstrip (lstrip s).

(** [s.replace(c, "")] for a one-character pattern [c]. *)
Fixpoint remove_char (c : ascii) (s : pystr) : pystr :=
  match s with
  | [] => []
  | x :: t => if Ascii.eqb x c then remove_char c t else x :: remove_char c t
  end.

Fixpoint startswith (s p : pystr) : bool :=
  match p, s with
  | [], _ => true
  | _ :: _, [] => false
  | y :: p', x :: s' => Ascii.eqb x y && startswith s' p'
  end.

(** [s.count(c)] for a one-character pattern [c]. *)
Fixpoint count_char (c : ascii) (s : pystr) : Z :=
  match s with
  | [] => 0
  | x :: t => (if Ascii.eqb x c then 1 else 0) + count_char c t
  end.

(** [c in chars] for one character [c]. *)
Definition char_in (c : ascii) (chars : pystr) : bool :=
  existsb (Ascii.eqb c) chars.

Definition lower_char (c : ascii) : ascii :=
  let n := code c in
  if ((65 <=? n) && (n <=? 90))
     || ((192 <=? n) && (n <=? 222) && negb (n =? 215))
  then ascii_of_N (Z.to_N (n + 32)) else c.

Definition lower (s : pystr) : pystr := map lower_char s.

Definition upper_char (c : ascii) : ascii :=
  let n := code c in
  if (97 <=? n) && (n <=? 122) then ascii_of_N (Z.to_N (n - 32)) else c.

Definition str_eqb (a b : pystr) : bool := bool_decide (a = b).

(** [s.zfill(width)]: zeros go after a leading sign. *)
Definition zfill (s : pystr) (width : Z) : pystr :=
  let fill := repeat "0"%char (Z.to_nat (width - len s)) in
  match s with
  | c :: t =>
      if Ascii.eqb c "+" || Ascii.eqb c "-" then c :: fill ++ t
      else fill ++ s
  | [] => fill
  end.

(** *** [int(s, base)] for [base] in 2..36 *)

(** The whitespace [int] skips around a numeral, for code points below
    256: unlike [str.strip], it keeps U+001C..U+001F. *)
Definition is_int_space (c : ascii) : bool :=
  let n := code c in
  ((9 <=? n) && (n <=? 13)) || (n =? 32) || (n =? 133) || (n =? 160).

Fixpoint lstrip_by (sp : ascii -> bool) (s : pystr) : pystr :=
  match s with
  | [] => []
  | c :: t => if sp c then lstrip_by sp t else s
  end.

Definition strip_by (sp : ascii -> bool) (s : pystr) : pystr :=
  rev (lstrip_by sp (rev (lstrip_by sp s))).

Definition digit_value (c : ascii) : option Z :=
  let n := code c in
  if (48 <=? n) && (n <=? 57) then Some (n - 48)
  else if (97 <=? n) && (n <=? 122) then Some (n - 87)
  else if (65 <=? n) && (n <=? 90) then Some (n - 55)
  else None.

(** Digits with single underscores between them; [prev] tells whether
    the previous character was a digit. *)
Fixpoint scan_digits (base : Z) (s : pystr) (acc : Z) (prev : bool)
  : option Z :=
  match s with
  | [] => if prev then Some acc else None
  | c :: t =>
      if Ascii.eqb c "_" then
        if prev then scan_digits base t acc false else None
      else
        match digit_value c with
        | Some d =>
            if d <? base then scan_digits base t (acc * base + d) true
            else None
        | None => None
        end
  end.

Definition prefix_letter (base : Z) (c : ascii) : bool :=
  ((base =? 16) && (Ascii.eqb c "x" || Ascii.eqb c "X"))
  || ((base =? 8) && (Ascii.eqb c "o" || Ascii.eqb c "O"))
  || ((base =? 2) && (Ascii.eqb c "b" || Ascii.eqb c "B")).

Definition int (s : pystr) (base : Z) : res Z :=
  let s1 := strip_by is_int_space s in
  let '(neg, s2) :=
    match s1 with
    | c :: t =>
        if Ascii.eqb c "+" then (false, t)
        else if Ascii.eqb c "-" then (true, t)
        else (false, s1)
    | [] => (false, s1)
    end in
  let s3 :=
    match s2 with
    | z :: p :: t =>
        if Ascii.eqb z "0" && prefix_letter base p then
          match t with
          | u :: t' => if Ascii.eqb u "_" then t' else t
          | [] => t
          end
        else s2
    | _ => s2
    end in
  match scan_digits base s3 0 false with
  | Some n => Ok (if neg then - n else n)
  | None => Raise ValueError
  end.

(** *** [bin(n)] and the format specification [X] *)

Fixpoint bin_digits (p : positive) : pystr :=
  match p with
  | xH => ["1"%char]
  | xO q => bin_digits q ++ ["0"%char]
  | xI q => bin_digits q ++ ["1"%char]
  end.

Definition bin (n : Z) : pystr :=
  match n with
  | Z0 => str "0b0"
  | Zpos p => str "0b" ++ bin_digits p
  | Zneg p => str "-0b" ++ bin_digits p
  end.

(** [format(n, "X")]: upper-case hexadecimal, no prefix. *)
Definition format_X (n : Z) : pystr :=
  let digits (m : N) :=
    map upper_char (str (NilZero.string_of_uint (N.to_hex_uint m))) in
  match n with
  | Zneg p => "-"%char :: digits (Npos p)
  | _ => digits (Z.to_N n)
  end.

End Py.

(** *** Values and dictionaries *)

Module Dict.

Section Dict.
Context {K V : Type} `{EqDecision K}.

(** [d[k] = v]: a present key keeps its position. *)
Fixpoint dict_set (d : list (K * V)) (k : K) (v : V) : list (K * V) :=
  match d with
  | [] => [(k, v)]
  | (k', v') :: t =>
      if decide (k = k') then (k, v) :: t else (k', v') :: dict_set t k v
  end.

(** [d[k]], or [None] when [k] is not a key of [d]. *)
Fixpoint dict_lookup (d : list (K * V)) (k : K) : option V :=
  match d with
  | [] => None
  | (k', v') :: t => if decide (k = k') then Some v' else dict_lookup t k
  end.

(** [d.get(k, dflt)]: the default is used only when the key is absent. *)
Definition dict_get (d : list (K * V)) (k : K) (dflt : V) : V :=
  match dict_lookup d k with
  | Some v => v
  | None => dflt
  end.

Definition keys (d : list (K * V)) : list K := map fst d.

End Dict.

End Dict.

Import Py Dict.

Inductive pyval :=
| PyNone
| PyBool (b : bool)
| PyInt (z : Z)
| PyStr (s : pystr)
| PyTuple2 (a b : Z).

(** Truth value of an object, as [all] and [if] test it. *)
Definition truthy (v : pyval) : bool :=
  match v with
  | PyNone => false
  | PyBool b => b
  | PyInt z => negb (z =? 0)
  | PyStr s => negb (bool_decide (s = []))
  | PyTuple2 _ _ => true
  end.

(** ** Utility *)

Definition HEX_CHARS : pystr := str "0123456789abcdefABCDEF".

Definition clean_input (s : pystr) : pystr := strip s.

Definition is_binary (s : pystr) : bool :=
  forallb (fun ch => char_in ch (str "01")) s && (0 <? len s).

Definition is_hex (s : pystr) : bool :=
  forallb (fun ch => char_in ch HEX_CHARS) s && (0 <? len s).

(** [None] is the value returned when [int] raises [ValueError]. *)
Definition hex_to_binary (hex_string : pystr) : option pystr :=
  match int hex_string 16 with
  | Ok n => Some (zfill (slice (bin n) (Some 2) None) (len hex_string * 4))
  | Raise ValueError => None
  end.

(** The text [process_input] classifies: trimmed, separators removed,
    one leading [0x]/[0X] dropped. *)
Definition cleaned (input_string : pystr) : pystr :=
  let s := clean_input input_string in
  let s := remove_char "_" (remove_char "-" (remove_char " " s)) in
  if startswith s (str "0x") || startswith s (str "0X")
  then slice s (Some 2) None else s.

Definition msg_invalid_hex : pystr := str "Invalid hex input.".

Definition msg_hex_or_binary : pystr :=
  str "Input must be hex or binary (e.g., 0x1A2B, 1100101).".

(** Returns the pair [(bits, error)]. *)
Definition process_input (input_string : pystr)
  : option pystr * option pystr :=
  let s := cleaned input_string in
  if is_binary s then (Some s, None)
  else if is_hex s then
    match hex_to_binary s with
    | None => (None, Some msg_invalid_hex)
    | Some b => (Some b, None)
    end
  else (None, Some msg_hex_or_binary).

(** ** Formats *)

(** A parity rule, read with [rule.get("type", "even")] and
    [rule.get("ranges", [])]: either key may be absent. *)
Record ParityRule := {
  rule_type : option pystr;
  rule_ranges : option (list (Z * Z));
}.

(** The value under ["parity_coverage"]: a dictionary from parity type
    to one range (the shape of the hard-coded table) or a list of rules. *)
Inductive Coverage :=
| CovDict (d : list (pystr * (Z * Z)))
| CovList (rules : list ParityRule).

(** A format object; [parity_coverage] is what
    [fmt_obj.get("parity_coverage")] returns, [None] when the key is
    absent. *)
Record Format := {
  bit_length : Z;
  fields : list (pystr * (Z * Z));
  parity_coverage : option Coverage;
}.

(** *** The format document, as loaded from JSON with integer numbers *)

Record RawField := {
  fld_name : pystr;
  fld_start : Z;
  fld_end : Z;
  fld_role : option pystr;
}.

Record RawParity := {
  p_type : option pystr;
  p_ranges : option (list (Z * Z));
}.

Record RawFormat := {
  f_name : option pystr;
  f_bit_length : option Z;
  f_fields : option (list RawField);
  f_parity : option (list RawParity);
}.

Record RawDoc := {
  doc_formats : option (list RawFormat);
}.

Definition get {A} (o : option A) (dflt : A) : A :=
  match o with
  | Some a => a
  | None => dflt
  end.

(** ** Decoding core *)

(** Inclusive end index extraction (0-based). *)
Definition extract_bits (binary_string : pystr) (start end_ : Z) : pystr :=
  slice binary_string (Some start) (Some (end_ + 1)).

Definition bits_to_int (bits : pystr) : res Z :=
  if bool_decide (bits = []) then Ok 0 else int bits 2.

Definition field_entry (bits : pystr) (n start end_ : Z)
  : list (pystr * pyval) :=
  [ (str "bits", PyStr bits);
    (str "int", PyInt n);
    (str "hex", PyStr (str "0x" ++ format_X n));
    (str "len", PyInt (end_ - start + 1));
    (str "range", PyTuple2 start end_) ].

Fixpoint extract_fields_loop (binary_string : pystr)
  (items : list (pystr * (Z * Z)))
  (fields : list (pystr * list (pystr * pyval)))
  : res (list (pystr * list (pystr * pyval))) :=
  match items with
  | [] => Ok fields
  | (field, (start, end_)) :: rest =>
      let bits := extract_bits binary_string start end_ in
      bind (bits_to_int bits) (fun n =>
      extract_fields_loop binary_string rest
        (dict_set fields field (field_entry bits n start end_)))
  end.

Definition extract_fields (binary_string : pystr) (fmt_obj : Format)
  : res (list (pystr * list (pystr * pyval))) :=
  extract_fields_loop binary_string (fields fmt_obj) [].

Definition parity_even_bit_needed (bits : pystr) : Z :=
  let ones := count_char "1" bits in
  if ones mod 2 =? 0 then 0 else 1.

Definition parity_odd_bit_needed (bits : pystr) : Z :=
  let ones := count_char "1" bits in
  if ones mod 2 =? 0 then 1 else 0.

Definition parity_entry (typ : pystr) (s e expected : Z) (data_bits : pystr)
  : list (pystr * pyval) :=
  [ (str "label",
      PyStr (if str_eqb typ (str "even") then str "Even Parity"
             else str "Odd Parity"));
    (str "type", PyStr typ);
    (str "coverage", PyTuple2 s e);
    (str "expected", PyInt expected);
    (str "actual", PyNone);
    (str "ok", PyNone);
    (str "data_len", PyInt (len data_bits)) ].

Definition verify_range (binary_string : pystr) (typ : pystr)
  (r : Z * Z) : list (pystr * pyval) :=
  let '(s, e) := r in
  let data_bits := extract_bits binary_string s e in
  let expected :=
    if str_eqb typ (str "even") then parity_even_bit_needed data_bits
    else parity_odd_bit_needed data_bits in
  parity_entry typ s e expected data_bits.

Definition verify_rule (binary_string : pystr) (rule : ParityRule)
  : list (list (pystr * pyval)) :=
  let typ := lower (get (rule_type rule) (str "even")) in
  map (verify_range binary_string typ) (get (rule_ranges rule) []).

(** The rules built from a dictionary-shaped coverage: one rule for each
    of ["even"], ["odd"] that is a key. *)
Definition rules_of_dict (coverage : list (pystr * (Z * Z)))
  : list ParityRule :=
  flat_map
    (fun typ =>
       match dict_lookup coverage typ with
       | Some r => [ {| rule_type := Some typ; rule_ranges := Some [r] |} ]
       | None => []
       end)
    [str "even"; str "odd"].

Definition verify_parity (binary_string : pystr) (fmt_obj : Format)
  : list (list (pystr * pyval)) :=
  match parity_coverage fmt_obj with
  | None => []
  | Some (CovDict []) => []
  | Some (CovList []) => []
  | Some coverage =>
      let rules :=
        match coverage with
        | CovDict d => rules_of_dict d
        | CovList rules => rules
        end in
      flat_map (verify_rule binary_string) rules
  end.

(** ** The application: catalogue, detection, strict-mode filter *)

Module App.

(** *** Normalization *)

Definition normalize_fields (flds : list RawField)
  : list (pystr * (Z * Z)) :=
  fold_left
    (fun d fld => dict_set d (fld_name fld) (fld_start fld, fld_end fld))
    flds [].

Definition normalize_parity (ps : list RawParity) : list ParityRule :=
  flat_map
    (fun p =>
       let typ := lower (get (p_type p) (str "even")) in
       let ranges := get (p_ranges p) [] in
       match ranges with
       | [] => []
       | _ :: _ => [ {| rule_type := Some typ; rule_ranges := Some ranges |} ]
       end)
    ps.

Definition normalize_entry (f : RawFormat) : pystr * Format :=
  let name := get (f_name f) (str "Format") in
  let bitlen := get (f_bit_length f) 0 in
  let fields := normalize_fields (get (f_fields f) []) in
  let parity_cov := normalize_parity (get (f_parity f) []) in
  (name, {| bit_length := bitlen; fields := fields;
            parity_coverage := Some (CovList parity_cov) |}).

Definition _normalize_formats (doc : RawDoc) : list (pystr * Format) :=
  fold_left
    (fun out f => let '(name, fmt) := normalize_entry f in dict_set out name fmt)
    (get (doc_formats doc) []) [].

(** *** Detection *)

Definition detect_step (n : Z)
  (acc : list (pystr * Format) * list (pystr * Format))
  (item : pystr * Format)
  : list (pystr * Format) * list (pystr * Format) :=
  let '(exact, compatible) := acc in
  let L := bit_length (snd item) in
  if n =? L then (exact ++ [item], compatible)
  else if n >? L then (exact, compatible ++ [item])
  else (exact, compatible).

Definition _detect_formats (FORMATS : list (pystr * Format))
  (binary_string : pystr)
  : list (pystr * Format) * list (pystr * Format) :=
  let n := len binary_string in
  fold_left (detect_step n) FORMATS ([], []).

(** *** Strict-mode parity filter *)

Definition _parity_all_ok (binary_string : pystr) (fmt : Format) : bool :=
  let pv := verify_parity binary_string fmt in
  match pv with
  | [] => true
  | _ :: _ =>
      forallb (fun r => truthy (dict_get r (str "ok") (PyBool true))) pv
  end.

(** *** Calculate *)

(** The window of a compatible match. *)
Definition use_bits (slice_mode : pystr) (binary_string : pystr) (L : Z)
  : pystr :=
  if str_eqb slice_mode (str "left")
  then slice binary_string None (Some L)
  else slice binary_string (Some (- L)) None.

(** One call [_render_format(bits, name, fmt)]. *)
Record RenderCall := {
  rc_bits : pystr;
  rc_name : pystr;
  rc_fmt : Format;
}.

Definition render_exact (show_fails : bool) (binary_string : pystr)
  (exact : list (pystr * Format)) : list RenderCall :=
  flat_map
    (fun '(name, fmt) =>
       if negb show_fails && negb (_parity_all_ok binary_string fmt) then []
       else [ {| rc_bits := binary_string; rc_name := name; rc_fmt := fmt |} ])
    exact.

Definition render_compatible (show_fails : bool) (slice_mode : pystr)
  (binary_string : pystr) (compatible : list (pystr * Format))
  : list RenderCall :=
  flat_map
    (fun '(name, fmt) =>
       let L := bit_length fmt in
       let use_bits := use_bits slice_mode binary_string L in
       if negb show_fails && negb (_parity_all_ok use_bits fmt) then []
       else
         let suffix :=
           if str_eqb slice_mode (str "left") then str " (leftmost)"
           else str " (rightmost)" in
         [ {| rc_bits := use_bits; rc_name := name ++ suffix;
              rc_fmt := fmt |} ])
    compatible.

(** What one press of Calculate does: an error box, the message that no
    format matches, or the rendering calls in order. [Crash] stands for
    [len(None)], were [process_input] to return neither bits nor error. *)
Inductive Outcome :=
| ShowError (msg : pystr)
| NoMatch
| Rendered (calls : list RenderCall)
| Crash.

Definition on_calculate (FORMATS : list (pystr * Format))
  (show_fails : bool) (slice_mode : pystr) (input_data : pystr) : Outcome :=
  match process_input input_data with
  | (_, Some (c :: error)) => ShowError (c :: error)
  | (None, _) => Crash
  | (Some binary_string, _) =>
      let '(exact, compatible) := _detect_formats FORMATS binary_string in
      match exact, compatible with
      | [], [] => NoMatch
      | _, _ =>
          Rendered
            (render_exact show_fails binary_string exact
             ++ render_compatible show_fails slice_mode binary_string
                  compatible)
      end
  end.

End App.

(** ** The built-in catalogue (excerpt of [DEFAULT_FORMATS]) *)

Definition raw_field (name : string) (s e : Z) (role : option string)
  : RawField :=
  {| fld_name := str name; fld_start := s; fld_end := e;
     fld_role := option_map str role |}.

Definition raw_parity (typ : string) (ranges : list (Z * Z)) : RawParity :=
  {| p_type := Some (str typ); p_ranges := Some ranges |}.

Definition H10301 : RawFormat :=
  {| f_name := Some (str "H10301 - 26-bit");
     f_bit_length := Some 26;
     f_fields := Some
       [ raw_field "Parity L" 0 0 (Some "parity"%string);
         raw_field "Facility" 1 8 None;
         raw_field "Card" 9 24 None;
         raw_field "Parity R" 25 25 (Some "parity"%string) ];
     f_parity := Some
       [ raw_parity "even" [(1, 12)]; raw_parity "odd" [(13, 24)] ] |}.

Definition CSN32 : RawFormat :=
  {| f_name := Some (str "CSN - 32-bit (4-byte)");
     f_bit_length := Some 32;
     f_fields := Some [ raw_field "CSN" 0 31 None ];
     f_parity := Some [] |}.

Definition DEFAULT_FORMATS : RawDoc :=
  {| doc_formats := Some [ H10301; CSN32 ] |}.

(** ** Notions used in the statements *)

(** A bit string: characters ['0'] and ['1'] only. *)
Definition bitstring (s : pystr) : Prop :=
  Forall (fun c => c = "0"%char \/ c = "1"%char) s.

(** A valid hex string: non-empty, hexadecimal digits only. *)
Definition hexstring (s : pystr) : Prop :=
  s <> [] /\ Forall (fun c => In c HEX_CHARS) s.

(** [c] is a digit of [base]. *)
Definition is_digit (base : Z) (c : ascii) : bool :=
  match digit_value c with
  | Some d => d <? base
  | None => false
  end.

(** The number a digit string denotes, most significant digit first. *)
Definition digits_from (base : Z) (s : pystr) (acc : Z) : Z :=
  fold_left (fun a c => a * base + get (digit_value c) 0) s acc.

Definition digits_value (base : Z) (s : pystr) : Z := digits_from base s 0.

(** The entry [extract_fields] stores for a field of a bit string. *)
Definition field_value (b : pystr) (start end_ : Z) : list (pystr * pyval) :=
  let bits := extract_bits b start end_ in
  field_entry bits (digits_value 2 bits) start end_.

(** The sample payloads of the statements below. *)
Definition card26 : pystr := str "00000000000000000000000001".

Definition payload30 : pystr := str "101100000000100000000000001101".

(** The last element of a list that satisfies [P], if any. *)
Fixpoint last_with {A} (P : A -> bool) (l : list A) : option A :=
  match l with
  | [] => None
  | x :: t =>
      match last_with P t with
      | Some y => Some y
      | None => if P x then Some x else None
      end
  end.

(** A separator that [process_input] removes. *)
Definition is_separator (c : ascii) : bool :=
  Ascii.eqb c " " || Ascii.eqb c "-" || Ascii.eqb c "_".

(** The characters [format_X] writes for a non-empty numeral. *)
Definition hex_chars (d : Hexadecimal.uint) : pystr :=
  map upper_char (str (NilEmpty.string_of_uint d)).

(** ** The earlier, hard-coded version ([Binary SlicerCopy.py]) *)

Module Legacy.

(** [binary_string[start:end]]: the end index is exclusive here. *)
Definition extract_bits (binary_string : pystr) (start end_ : Z) : pystr :=
  slice binary_string (Some start) (Some end_).

Definition bits_to_int (bits : pystr) : res Z :=
  if bool_decide (bits = []) then Ok 0 else int bits 2.

(** Return the parity bit that makes the total number of 1s even. *)
Definition parity_even (bits : pystr) : Z :=
  let ones := count_char "1" bits in
  if ones mod 2 =? 0 then 0 else 1.

(** Return the parity bit that makes the total number of 1s odd. *)
Definition parity_odd (bits : pystr) : Z :=
  let ones := count_char "1" bits in
  if ones mod 2 =? 0 then 1 else 0.

Definition check_entry (expected p_bit : Z) (data_bits : pystr)
  : list (pystr * pyval) :=
  [ (str "expected", PyInt expected);
    (str "actual", PyInt p_bit);
    (str "ok", PyBool (expected =? p_bit));
    (str "data_len", PyInt (len data_bits)) ].

(** [typ in coverage] and [coverage[typ]]: a string is never a member
    of a list of rules. *)
Definition coverage_lookup (coverage : Coverage) (typ : pystr)
  : option (Z * Z) :=
  match coverage with
  | CovDict d => dict_lookup d typ
  | CovList _ => None
  end.

(** One of the two checks of [verify_parity]. *)
Definition check (binary_string : pystr) (fmt : Format) (coverage : Coverage)
  (field typ : pystr) (parity : pystr -> Z)
  (result : list (pystr * list (pystr * pyval)))
  : res (list (pystr * list (pystr * pyval))) :=
  match dict_lookup (fields fmt) field, coverage_lookup coverage typ with
  | Some (fs, fe), Some (cs, ce) =>
      bind (bits_to_int (extract_bits binary_string fs fe)) (fun p_bit =>
      let data_bits := extract_bits binary_string cs ce in
      let expected := parity data_bits in
      Ok (dict_set result field (check_entry expected p_bit data_bits)))
  | _, _ => Ok result
  end.

(** Compute expected vs actual parity for formats that define coverage. *)
Definition verify_parity (binary_string fmt_name : pystr) (fmt : Format)
  : res (list (pystr * list (pystr * pyval))) :=
  match parity_coverage fmt with
  | None => Ok []
  | Some (CovDict []) => Ok []
  | Some (CovList []) => Ok []
  | Some coverage =>
      bind (check binary_string fmt coverage (str "Even Parity") (str "even")
              parity_even [])
        (fun result =>
           check binary_string fmt coverage (str "Odd Parity") (str "odd")
             parity_odd result)
  end.

(** True if no parity rules are defined OR all defined parity checks
    pass. *)
Definition parity_all_ok (binary_string : pystr) (fmt : Format) : res bool :=
  bind (verify_parity binary_string [] fmt) (fun pv =>
  Ok (match pv with
      | [] => true
      | _ :: _ =>
          forallb (fun entry => truthy (dict_get entry (str "ok") (PyBool true)))
            (map snd pv)
      end)).

(** The entry ["H10301 (26-bit)"] of [HID_FORMATS]. *)
Definition H10301 : Format :=
  {| bit_length := 26;
     fields := [ (str "Even Parity", (0, 1)); (str "Site Code", (1, 9));
                 (str "Card Number", (9, 25)); (str "Odd Parity", (25, 26)) ];
     parity_coverage :=
       Some (CovDict [ (str "even", (1, 13)); (str "odd", (13, 25)) ]) |}.

End Legacy.

(** ** Merging format documents *)

(** [{key(f): i for i, f in enumerate(formats)}], counting from [i]. *)
Fixpoint index_names {K} `{EqDecision K} (key : RawFormat -> K)
  (formats : list RawFormat) (i : nat) (names : list (K * nat))
  : list (K * nat) :=
  match formats with
  | [] => names
  | f :: rest => index_names key rest (S i) (dict_set names (key f) i)
  end.

(** One turn of the loop over the incoming formats; [formats] is the
    list [base["formats"]], updated in place. *)
Definition merge_step (names : list (option pystr * nat))
  (formats : list RawFormat) (f : RawFormat) : list RawFormat :=
  match dict_lookup names (f_name f) with
  | Some i => <[i := f]> formats
  | None => formats ++ [f]
  end.

(** The fallback [merge_formats] of [Binary Slicer.py]; [None] stands
    for the [KeyError] of [base["formats"]], raised before [base] is
    changed. *)
Definition merge_formats (base incoming : RawDoc) : option RawDoc :=
  let names := index_names f_name (get (doc_formats base) []) 0%nat [] in
  match get (doc_formats incoming) [] with
  | [] => Some base
  | f :: rest =>
      match doc_formats base with
      | None => None
      | Some formats =>
          Some {| doc_formats :=
                    Some (fold_left (merge_step names) (f :: rest) formats) |}
      end
  end.

Module FormatsIO.

(** [Modules/formats_io.py]: names are read with [f["name"]], which
    raises [KeyError] on a format without a name. *)
Fixpoint index_names (formats : list RawFormat) (i : nat)
  (names : list (pystr * nat)) : option (list (pystr * nat)) :=
  match formats with
  | [] => Some names
  | f :: rest =>
      match f_name f with
      | None => None
      | Some nm => index_names rest (S i) (dict_set names nm i)
      end
  end.

(** The loop over the incoming formats: the list [base["formats"]] as
    it is when the loop ends, and whether it ended normally ([true]) or
    with a [KeyError] ([false]). *)
Fixpoint merge_loop (names : list (pystr * nat)) (formats : list RawFormat)
  (incoming : list RawFormat) : list RawFormat * bool :=
  match incoming with
  | [] => (formats, true)
  | f :: rest =>
      match f_name f with
      | None => (formats, false)
      | Some nm =>
          match dict_lookup names nm with
          | Some i => merge_loop names (<[i := f]> formats) rest
          | None => merge_loop names (formats ++ [f]) rest
          end
      end
  end.

(** [merge_formats(base, incoming)]: the document [base] after the
    call (it is updated in place) and whether the call returned. *)
Definition merge_formats (base incoming : RawDoc) : RawDoc * bool :=
  match index_names (get (doc_formats base) []) 0%nat [] with
  | None => (base, false)
  | Some names =>
      match get (doc_formats incoming) [] with
      | [] => (base, true)
      | f :: rest =>
          match doc_formats base with
          | None => (base, false)
          | Some formats =>
              let '(formats', ok) := merge_loop names formats (f :: rest) in
              ({| doc_formats := Some formats' |}, ok)
          end
      end
  end.

End FormatsIO.

(** ** Managing the formats of the application *)

Module Manage.

(** The application keeps the document and the catalogue made from it. *)
Record State := {
  formats_doc : RawDoc;
  FORMATS : list (pystr * Format);
}.

(** [menu_import] with the fallback [merge_formats], once the file is
    chosen and parsed: on an exception the state is as before. *)
Definition menu_import (st : State) (incoming : RawDoc) : State :=
  match merge_formats (formats_doc st) incoming with
  | Some doc => {| formats_doc := doc; FORMATS := App._normalize_formats doc |}
  | None => st
  end.

(** [_delete_selected_format] for the selected [name], once confirmed,
    on the list [formats_doc["formats"]]. *)
Definition _delete_selected_format (formats : list RawFormat) (name : pystr)
  : list RawFormat :=
  List.filter (fun f => negb (bool_decide (f_name f = Some name))) formats.

(** [_clone_selected_format] for the selected [name], on the list
    [formats_doc["formats"]]: the first format with that name is copied
    under the name with [" (Copy)"] appended. *)
Definition _clone_selected_format (formats : list RawFormat) (name : pystr)
  : list RawFormat :=
  match List.find (fun f => bool_decide (f_name f = Some name)) formats with
  | None => formats
  | Some src =>
      let dup :=
        {| f_name := Some (get (f_name src) (str "Format") ++ str " (Copy)");
           f_bit_length := f_bit_length src;
           f_fields := f_fields src;
           f_parity := f_parity src |} in
      formats ++ [dup]
  end.

End Manage.

(** *** Notions for the statements about merging *)

(** Some format of [l] has the name [k]. *)
Definition has_name (k : option pystr) (l : list RawFormat) : bool :=
  existsb (fun g => bool_decide (f_name g = k)) l.

(** The last incoming format with the name of [g], or [g] itself. *)
Definition replacement (incoming : list RawFormat) (g : RawFormat)
  : RawFormat :=
  match last_with (fun f => bool_decide (f_name f = f_name g)) incoming with
  | Some f => f
  | None => g
  end.

(** The index of names of [FormatsIO], with the keys as the fallback
    version has them. *)
Definition lift_names (names : list (pystr * nat))
  : list (option pystr * nat) :=
  map (fun '(k, i) => (Some k, i)) names.

(** Every format of the list has a name. *)
Definition all_named (l : list RawFormat) : Prop :=
  Forall (fun f => f_name f <> None) l.

(** Formats for the examples of merging. *)
Definition CSN32_wider : RawFormat :=
  {| f_name := f_name CSN32; f_bit_length := Some 40;
     f_fields := None; f_parity := None |}.

Definition Raw8 : RawFormat :=
  {| f_name := Some (str "Raw"); f_bit_length := Some 8;
     f_fields := None; f_parity := None |}.

Definition Unnamed8 : RawFormat :=
  {| f_name := None; f_bit_length := Some 8;
     f_fields := None; f_parity := None |}.

(** ** Grouping bits for display *)

(** A text in which [textwrap] finds a single word: no whitespace and
    no hyphen. *)
Definition single_word (text : pystr) : bool :=
  forallb (fun c => negb (is_space c) && negb (Ascii.eqb c "-")) text.

(** The pieces of [width] characters of a word, the last one possibly
    shorter; [fuel] bounds the number of pieces. *)
Fixpoint pieces (fuel : nat) (width : nat) (text : pystr) : list pystr :=
  match fuel with
  | O => []
  | S fuel' =>
      match text with
      | [] => []
      | _ :: _ => take width text :: pieces fuel' width (drop width text)
      end
  end.

(** [textwrap.wrap(text, width)] for a text that is a single word and
    a positive width: the word is broken every [width] characters. Other
    arguments are outside this model ([None]). *)
Definition wrap (text : pystr) (width : Z) : option (list pystr) :=
  if single_word text && (0 <? width)
  then Some (pieces (length text) (Z.to_nat width) text)
  else None.

(** [sep.join(l)] *)
Fixpoint join (sep : pystr) (l : list pystr) : pystr :=
  match l with
  | [] => []
  | x :: t =>
      match t with
      | [] => x
      | _ :: _ => x ++ sep ++ join sep t
      end
  end.

(** [None] when [textwrap.wrap] is called outside the model above. *)
Definition format_binary_groups (b : pystr) (group : Z) : option pystr :=
  if group <=? 0 then Some b
  else
    let rem := len b mod group in
    let leading :=
      if rem =? 0 then [] else slice b None (Some rem) ++ str " " in
    let rest := slice b (Some rem) None in
    match rest with
    | [] => Some b
    | _ :: _ =>
        match wrap rest group with
        | Some lines => Some (leading ++ join (str " ") lines)
        | None => None
        end
    end.

(** * Properties *)

(** ** Characters *)

Ltac by_cases_on_char c :=
  destruct c as [[] [] [] [] [] [] [] []]; vm_compute; try reflexivity;
  try discriminate; try tauto.

Lemma char_in_binary_digit (c : ascii) :
  char_in c (str "01") = is_digit 2 c.
Proof. by_cases_on_char c. Qed.

Lemma char_in_hex_digit (c : ascii) :
  char_in c HEX_CHARS = is_digit 16 c.
Proof. by_cases_on_char c. Qed.

Lemma char_in_binary_is_bit (c : ascii) :
  char_in c (str "01") = true <-> c = "0"%char \/ c = "1"%char.
Proof.
  unfold char_in, str; simpl. rewrite !orb_true_iff, !Ascii.eqb_eq.
  intuition discriminate.
Qed.

Lemma char_in_In (c : ascii) (chars : pystr) :
  char_in c chars = true <-> In c chars.
Proof.
  unfold char_in. rewrite existsb_exists. split.
  - intros [x [Hx He]]. apply Ascii.eqb_eq in He. now subst.
  - intros H. exists c. split; [assumption | apply Ascii.eqb_refl].
Qed.

Lemma binary_digit_is_hex_digit (c : ascii) :
  is_digit 2 c = true -> is_digit 16 c = true.
Proof.
  unfold is_digit. destruct (digit_value c); [| discriminate].
  rewrite !Z.ltb_lt. lia.
Qed.

Lemma digit_value_nonneg (c : ascii) (d : Z) :
  digit_value c = Some d -> 0 <= d.
Proof.
  unfold digit_value.
  repeat match goal with
         | |- context [?a <=? ?b] => destruct (Z.leb_spec a b)
         end; cbn [andb]; intros [= <-]; lia.
Qed.

Lemma digit_not_space (base : Z) (c : ascii) :
  is_digit base c = true -> is_space c = false.
Proof.
  unfold is_digit. destruct (digit_value c) eqn:E; [| discriminate].
  intros _. revert E. by_cases_on_char c.
Qed.

Lemma digit_not_sign (base : Z) (c : ascii) :
  is_digit base c = true ->
  Ascii.eqb c "+" = false /\ Ascii.eqb c "-" = false
  /\ Ascii.eqb c "_" = false.
Proof.
  unfold is_digit. destruct (digit_value c) eqn:E; [| discriminate].
  intros _. revert E. by_cases_on_char c.
Qed.

Lemma prefix_letter_value (base : Z) (c : ascii) :
  prefix_letter base c = true ->
  exists d, digit_value c = Some d /\ base < d.
Proof.
  unfold prefix_letter.
  rewrite !orb_true_iff, !andb_true_iff, !orb_true_iff, !Z.eqb_eq,
    !Ascii.eqb_eq.
  intros [[[-> [-> | ->]] | [-> [-> | ->]]] | [-> [-> | ->]]];
    eexists; (split; [vm_compute; reflexivity | reflexivity]).
Qed.

Lemma digit_not_prefix_letter (base : Z) (c : ascii) :
  is_digit base c = true -> prefix_letter base c = false.
Proof.
  unfold is_digit. intros Hd.
  destruct (prefix_letter base c) eqn:Hp; [| reflexivity].
  destruct (prefix_letter_value base c Hp) as (d & Ed & Hlt).
  rewrite Ed in Hd. apply Z.ltb_lt in Hd. lia.
Qed.

(** ** Strings *)

Lemma lstrip_no_space (s : pystr) :
  Forall (fun c => is_space c = false) s -> lstrip s = s.
Proof. intros H. destruct H as [| c t Hc _]; simpl; [| rewrite Hc]; reflexivity. Qed.

Lemma strip_no_space (s : pystr) :
  Forall (fun c => is_space c = false) s -> strip s = s.
Proof.
  intros H. unfold strip, rstrip. rewrite (lstrip_no_space s H).
  rewrite lstrip_no_space; [apply rev_involutive | now apply List.Forall_rev].
Qed.

Lemma strip_by_none (sp : ascii -> bool) (s : pystr) :
  Forall (fun c => sp c = false) s -> strip_by sp s = s.
Proof.
  intros H. unfold strip_by.
  assert (E : forall l, Forall (fun c => sp c = false) l -> lstrip_by sp l = l).
  { intros l Hl. destruct Hl as [| c t Hc _]; cbn [lstrip_by];
      [| rewrite Hc]; reflexivity. }
  rewrite (E s H), (E _ (List.Forall_rev H)). apply rev_involutive.
Qed.

Lemma int_space_is_space (c : ascii) :
  is_space c = false -> is_int_space c = false.
Proof.
  destruct c as [[] [] [] [] [] [] [] []]; vm_compute; intros H;
    try discriminate H; reflexivity.
Qed.

Lemma strip_int_no_space (s : pystr) :
  Forall (fun c => is_space c = false) s -> strip_by is_int_space s = s.
Proof.
  intros H. apply strip_by_none. eapply Forall_impl; [exact H |].
  apply int_space_is_space.
Qed.

Lemma remove_char_absent (c : ascii) (s : pystr) :
  Forall (fun x => Ascii.eqb x c = false) s -> remove_char c s = s.
Proof.
  induction 1 as [| x t Hx _ IH]; simpl; [reflexivity |].
  now rewrite Hx, IH.
Qed.

Lemma count_char_nonneg (c : ascii) (s : pystr) : 0 <= count_char c s.
Proof.
  induction s as [| x t IH]; cbn [count_char]; [lia |].
  destruct (Ascii.eqb x c); lia.
Qed.

(** ** Slices *)

Lemma len_nonneg {A} (s : list A) : 0 <= len s.
Proof. unfold len. lia. Qed.

Lemma adjust_index_range (n i : Z) : 0 <= n -> 0 <= adjust_index n i <= n.
Proof. unfold adjust_index. destruct (Z.ltb_spec i 0); lia. Qed.

Lemma slice_from {A} (s : list A) (k : Z) :
  0 <= k -> slice s (Some k) None = drop (Z.to_nat k) s.
Proof.
  intros Hk. unfold slice, adjust_index, len.
  destruct (Z.ltb_spec k 0); [lia |].
  destruct (Z.min_spec k (Z.of_nat (length s))) as [[Hlt ->] | [Hge ->]].
  - apply firstn_all2. rewrite length_drop. lia.
  - rewrite Nat2Z.id. rewrite !drop_ge by lia. now destruct (Z.to_nat _).
Qed.

Lemma slice_inside {A} (s : list A) (lo hi : Z) :
  0 <= lo <= hi -> hi <= len s ->
  slice s (Some lo) (Some hi) = take (Z.to_nat (hi - lo)) (drop (Z.to_nat lo) s)
  /\ len (slice s (Some lo) (Some hi)) = hi - lo.
Proof.
  intros Hlo Hhi. unfold slice, adjust_index, len in *.
  destruct (Z.ltb_spec lo 0); [lia |]. destruct (Z.ltb_spec hi 0); [lia |].
  rewrite !Z.min_l by lia. split; [reflexivity |].
  rewrite length_take, length_drop. lia.
Qed.

Lemma slice_beyond {A} (s : list A) (lo hi : Z) :
  len s <= hi ->
  slice s (Some lo) (Some hi) = slice s (Some lo) (Some (len s)).
Proof.
  intros Hhi. unfold slice, adjust_index. pose proof (len_nonneg s).
  destruct (Z.ltb_spec hi 0); [lia |]. destruct (Z.ltb_spec (len s) 0); [lia |].
  now rewrite (Z.min_r hi) by lia; rewrite (Z.min_l (len s)) by lia.
Qed.

Lemma slice_length_le {A} (s : list A) (lo hi : option Z) :
  len (slice s lo hi) <= len s.
Proof.
  unfold slice, len. rewrite length_take, length_drop. lia.
Qed.

Lemma slice_Forall {A} (P : A -> Prop) (s : list A) (lo hi : option Z) :
  Forall P s -> Forall P (slice s lo hi).
Proof. intros H. unfold slice. now apply Forall_take, Forall_drop. Qed.

Lemma slice_length_clamped {A} (s : list A) (lo hi : Z) :
  0 <= lo -> len s <= hi ->
  len (slice s (Some lo) (Some hi)) = Z.max 0 (len s - lo).
Proof.
  intros Hlo Hhi. unfold slice, adjust_index, len in *.
  destruct (Z.ltb_spec lo 0); [lia |]. destruct (Z.ltb_spec hi 0); [lia |].
  rewrite length_take, length_drop. lia.
Qed.

Lemma slice_length_negative_start {A} (s : list A) (lo hi : Z) :
  lo < 0 -> len (slice s (Some lo) (Some hi)) <= - lo.
Proof.
  intros Hlo. unfold slice, adjust_index, len in *.
  destruct (Z.ltb_spec lo 0); [| lia].
  rewrite length_take, length_drop. destruct (hi <? 0); lia.
Qed.

(** ** Reading digits: [int(s, base)] on a string of digits *)

Section Digits.

Variable base : Z.
Hypothesis base_ge_2 : 2 <= base.

Lemma digits_from_app (s t : pystr) (acc : Z) :
  digits_from base (s ++ t) acc = digits_from base t (digits_from base s acc).
Proof. unfold digits_from. apply fold_left_app. Qed.

Lemma digits_from_bounds (s : pystr) :
  forallb (is_digit base) s = true ->
  forall acc, 0 <= acc ->
  acc * base ^ len s <= digits_from base s acc < (acc + 1) * base ^ len s.
Proof.
  induction s as [| c t IH]; intros Hs acc Hacc.
  - unfold len; simpl. lia.
  - simpl in Hs. apply andb_true_iff in Hs as [Hc Ht].
    unfold is_digit in Hc. destruct (digit_value c) as [d |] eqn:Ed;
      [| discriminate].
    apply Z.ltb_lt in Hc.
    pose proof (digit_value_nonneg c d Ed) as Hd.
    unfold digits_from in *. cbn [fold_left]. rewrite Ed. cbn [get].
    specialize (IH Ht (acc * base + d) ltac:(nia)).
    replace (len (c :: t)) with (len t + 1)
      by (unfold len; cbn [length]; lia).
    rewrite Z.pow_add_r, Z.pow_1_r by (unfold len; lia).
    assert (0 < base ^ len t) by (apply Z.pow_pos_nonneg; unfold len; lia).
    nia.
Qed.

Lemma scan_digits_digits (s : pystr) :
  forallb (is_digit base) s = true ->
  forall acc prev, s <> [] \/ prev = true ->
  scan_digits base s acc prev = Some (digits_from base s acc).
Proof.
  induction s as [| c t IH]; intros Hs acc prev Hne.
  - destruct Hne as [Hne | ->]; [congruence | reflexivity].
  - simpl in Hs. apply andb_true_iff in Hs as [Hc Ht].
    destruct (digit_not_sign base c Hc) as (_ & _ & Hus).
    unfold is_digit in Hc. cbn [scan_digits]. rewrite Hus.
    destruct (digit_value c) as [d |] eqn:Ed; [| discriminate].
    rewrite Hc. rewrite (IH Ht) by (now right).
    unfold digits_from. cbn [fold_left]. now rewrite Ed.
Qed.

(** On a non-empty string of digits [int] does not raise, and reads the
    digits most significant first. *)
Lemma int_of_digits (s : pystr) :
  s <> [] -> forallb (is_digit base) s = true ->
  int s base = Ok (digits_value base s).
Proof.
  intros Hne Hs. unfold int.
  assert (Hsp : Forall (fun c => is_space c = false) s).
  { apply Forall_forall. intros c Hc. apply (digit_not_space base).
    rewrite forallb_forall in Hs. apply Hs. now apply list_elem_of_In. }
  rewrite (strip_int_no_space s Hsp).
  destruct s as [| c t]; [congruence |].
  pose proof Hs as Hs'. simpl in Hs'. apply andb_true_iff in Hs' as [Hc Ht].
  destruct (digit_not_sign base c Hc) as (-> & -> & _).
  assert (Hpre : match c :: t with
                 | z :: p :: t0 =>
                     if Ascii.eqb z "0" && prefix_letter base p
                     then match t0 with
                          | u :: t' => if Ascii.eqb u "_" then t' else t0
                          | [] => t0
                          end
                     else c :: t
                 | _ => c :: t
                 end = c :: t).
  { destruct t as [| p t0]; [reflexivity |].
    simpl in Ht. apply andb_true_iff in Ht as [Hp _].
    now rewrite (digit_not_prefix_letter base p Hp), andb_false_r. }
  rewrite Hpre. rewrite scan_digits_digits by (assumption || now left).
  reflexivity.
Qed.

End Digits.

(** ** Writing digits: [bin] and [zfill] *)

Lemma bin_digits_binary (p : positive) :
  forallb (is_digit 2) (bin_digits p) = true.
Proof.
  induction p as [q IH | q IH |]; cbn [bin_digits];
    rewrite ?forallb_app, ?IH; reflexivity.
Qed.

Lemma bin_digits_value (p : positive) :
  digits_value 2 (bin_digits p) = Zpos p.
Proof.
  unfold digits_value.
  induction p as [q IH | q IH |]; cbn [bin_digits]; [| | reflexivity].
  - rewrite digits_from_app, IH, Pos2Z.inj_xI. unfold digits_from.
    cbn [fold_left]. change (get (digit_value "1") 0) with 1. lia.
  - rewrite digits_from_app, IH, Pos2Z.inj_xO. unfold digits_from.
    cbn [fold_left]. change (get (digit_value "0") 0) with 0. lia.
Qed.

Lemma bin_digits_length (p : positive) :
  2 ^ len (bin_digits p) <= 2 * Zpos p.
Proof.
  induction p as [q IH | q IH |]; cbn [bin_digits]; [| | now vm_compute].
  all: unfold len in *; rewrite length_app; cbn [length];
    rewrite Nat2Z.inj_add, Z.pow_add_r, Z.pow_1_r by lia; lia.
Qed.

Lemma bin_digits_nonempty (p : positive) : bin_digits p <> [].
Proof. destruct p; cbn [bin_digits]; try (now destruct (bin_digits p)); discriminate. Qed.

Lemma zeros_value (k : nat) (s : pystr) :
  digits_value 2 (repeat "0"%char k ++ s) = digits_value 2 s.
Proof.
  unfold digits_value. rewrite digits_from_app. f_equal.
  induction k as [| k IH]; [reflexivity |].
  unfold digits_from in *. cbn [repeat fold_left]. now rewrite <- IH at 2.
Qed.

Lemma zfill_digits (s : pystr) (width : Z) :
  s <> [] -> forallb (is_digit 2) s = true ->
  zfill s width = repeat "0"%char (Z.to_nat (width - len s)) ++ s.
Proof.
  intros Hne Hs. destruct s as [| c t]; [congruence |].
  simpl in Hs. apply andb_true_iff in Hs as [Hc _].
  destruct (digit_not_sign 2 c Hc) as (Hp & Hm & _).
  unfold zfill. now rewrite Hp, Hm.
Qed.

Lemma bin_tail (n : Z) :
  0 <= n ->
  let d := slice (bin n) (Some 2) None in
  d <> [] /\ forallb (is_digit 2) d = true /\ digits_value 2 d = n
  /\ 2 ^ len d <= 2 * Z.max n 1.
Proof.
  intros Hn. rewrite slice_from by lia.
  destruct n as [| p | p]; [| | lia].
  - vm_compute. repeat split; discriminate.
  - change (drop (Z.to_nat 2) (bin (Zpos p))) with (bin_digits p).
    pose proof (bin_digits_length p).
    repeat split;
      auto using bin_digits_nonempty, bin_digits_binary, bin_digits_value.
    lia.
Qed.

(** ** The input normaliser *)

Lemma forallb_pointwise {A} (f g : A -> bool) (l : list A) :
  (forall x, f x = g x) -> forallb f l = forallb g l.
Proof. intros E. induction l as [| x t IH]; simpl; [| rewrite E, IH]; reflexivity. Qed.

Lemma forallb_hex_digits (s : pystr) :
  forallb (fun ch => char_in ch HEX_CHARS) s = forallb (is_digit 16) s.
Proof. apply forallb_pointwise, char_in_hex_digit. Qed.

Lemma forallb_binary_digits (s : pystr) :
  forallb (fun ch => char_in ch (str "01")) s = forallb (is_digit 2) s.
Proof. apply forallb_pointwise, char_in_binary_digit. Qed.

Lemma len_pos_iff {A} (s : list A) : (0 <? len s) = true <-> s <> [].
Proof.
  rewrite Z.ltb_lt. unfold len. destruct s; cbn [length]; split;
    try lia; congruence.
Qed.

Lemma is_hex_digits (s : pystr) :
  is_hex s = true <-> s <> [] /\ forallb (is_digit 16) s = true.
Proof.
  unfold is_hex. rewrite andb_true_iff, forallb_hex_digits, len_pos_iff. tauto.
Qed.

Lemma is_binary_digits (s : pystr) :
  is_binary s = true <-> s <> [] /\ forallb (is_digit 2) s = true.
Proof.
  unfold is_binary.
  rewrite andb_true_iff, forallb_binary_digits, len_pos_iff. tauto.
Qed.

Lemma bitstring_digits (s : pystr) :
  bitstring s <-> forallb (is_digit 2) s = true.
Proof.
  unfold bitstring. rewrite <- forallb_binary_digits, forallb_forall.
  rewrite Forall_forall. split; intros H c Hc.
  - apply char_in_binary_is_bit, H. now apply list_elem_of_In.
  - apply char_in_binary_is_bit, H. now apply list_elem_of_In.
Qed.

Lemma hexstring_digits (s : pystr) :
  hexstring s <-> s <> [] /\ forallb (is_digit 16) s = true.
Proof.
  unfold hexstring. rewrite <- forallb_hex_digits, forallb_forall.
  rewrite Forall_forall. split; intros [Hne H]; (split; [assumption |]);
    intros c Hc.
  - apply char_in_In, H. now apply list_elem_of_In.
  - apply char_in_In, H. now apply list_elem_of_In.
Qed.

Lemma is_hex_hexstring (s : pystr) : is_hex s = true <-> hexstring s.
Proof. now rewrite is_hex_digits, hexstring_digits. Qed.

Lemma is_binary_bitstring (s : pystr) :
  is_binary s = true <-> s <> [] /\ bitstring s.
Proof. now rewrite is_binary_digits, bitstring_digits. Qed.

Lemma is_binary_is_hex (s : pystr) : is_binary s = true -> is_hex s = true.
Proof.
  rewrite is_binary_digits, is_hex_digits. intros [Hne H]. split; [assumption |].
  rewrite forallb_forall in *. intros c Hc.
  now apply binary_digit_is_hex_digit, H.
Qed.

(** What [hex_to_binary] returns on hexadecimal digits: a string of
    four bits per digit that denotes the same number. *)
Lemma hex_to_binary_digits (s : pystr) :
  s <> [] -> forallb (is_digit 16) s = true ->
  exists b,
    hex_to_binary s = Some b
    /\ len b = 4 * len s
    /\ b <> [] /\ forallb (is_digit 2) b = true
    /\ digits_value 2 b = digits_value 16 s.
Proof.
  intros Hne Hs. unfold hex_to_binary.
  rewrite (int_of_digits 16 s Hne Hs).
  set (n := digits_value 16 s).
  assert (Hn : 0 <= n < 16 ^ len s).
  { pose proof (digits_from_bounds 16 ltac:(lia) s Hs 0 ltac:(lia)) as Hb.
    fold (digits_value 16 s) in Hb. fold n in Hb. lia. }
  destruct (bin_tail n ltac:(lia)) as (Hd & Hbits & Hval & Hlen).
  set (d := slice (bin n) (Some 2) None) in *.
  assert (Hs_pos : 0 < len s) by (now apply Z.ltb_lt, len_pos_iff).
  assert (Hfit : len d <= 4 * len s).
  { assert (H16 : 16 ^ len s = 2 ^ (4 * len s))
      by (rewrite Z.pow_mul_r by lia; reflexivity).
    assert (Hlt : 2 ^ len d < 2 ^ (4 * len s + 1)).
    { rewrite Z.pow_add_r, Z.pow_1_r by lia.
      assert (2 ^ 1 <= 2 ^ (4 * len s)) by (apply Z.pow_le_mono_r; lia).
      lia. }
    apply Z.pow_lt_mono_r_iff in Hlt; lia. }
  exists (zfill d (len s * 4)). split; [reflexivity |].
  rewrite (zfill_digits d _ Hd Hbits). repeat split.
  - unfold len in *. rewrite length_app, repeat_length. lia.
  - intros Happ. apply app_eq_nil in Happ as [_ Hnil]. contradiction.
  - rewrite forallb_app, Hbits, andb_true_r.
    apply forallb_forall. intros c Hc. apply repeat_spec in Hc. now subst c.
  - now rewrite zeros_value.
Qed.

Lemma hex_digit_plain (c : ascii) :
  is_digit 16 c = true ->
  is_space c = false /\ Ascii.eqb c " " = false
  /\ Ascii.eqb c "-" = false /\ Ascii.eqb c "_" = false.
Proof.
  intros H. destruct (digit_not_sign 16 c H) as (_ & Hm & Hu).
  pose proof (digit_not_space 16 c H) as Hs. repeat split; try assumption.
  destruct (Ascii.eqb_spec c " "); [subst c; discriminate | reflexivity].
Qed.

Lemma cleaned_prefixed_hex (H : pystr) :
  forallb (is_digit 16) H = true -> cleaned (str "0x" ++ H) = H.
Proof.
  intros HH. rewrite forallb_forall in HH.
  assert (Hall : forall P : ascii -> Prop,
             P "0"%char -> P "x"%char ->
             (forall c, is_digit 16 c = true -> P c) ->
             Forall P (str "0x" ++ H)).
  { intros P P0 Px Pd. repeat constructor; try assumption.
    apply Forall_forall. intros c Hc. apply Pd, HH. now apply list_elem_of_In. }
  unfold cleaned, clean_input.
  rewrite strip_no_space
    by (apply Hall; [reflexivity .. | intros c Hc; apply (hex_digit_plain c Hc)]).
  rewrite (remove_char_absent " " (str "0x" ++ H)),
    (remove_char_absent "-" (str "0x" ++ H)),
    (remove_char_absent "_" (str "0x" ++ H))
    by (apply Hall; [reflexivity .. | intros c Hc; apply (hex_digit_plain c Hc)]).
  replace (startswith (str "0x" ++ H) (str "0x")) with true
    by (destruct H; reflexivity).
  cbn [orb].
  now rewrite slice_from by lia.
Qed.

Lemma process_input_cases (input_string : pystr) :
  let s := cleaned input_string in
  (is_binary s = true /\ process_input input_string = (Some s, None))
  \/ (is_binary s = false /\ is_hex s = true
      /\ exists b, hex_to_binary s = Some b
                   /\ process_input input_string = (Some b, None))
  \/ (is_binary s = false /\ is_hex s = false
      /\ process_input input_string = (None, Some msg_hex_or_binary)).
Proof.
  intros s. unfold process_input. fold s.
  destruct (is_binary s) eqn:Eb; [now left |].
  destruct (is_hex s) eqn:Eh; [| now right; right].
  right; left. apply is_hex_digits in Eh as [Hne Hs].
  destruct (hex_to_binary_digits s Hne Hs) as (b & Hb & _).
  rewrite Hb. repeat split. now exists b.
Qed.

Lemma is_hex_false (s : pystr) :
  is_hex s = false <->
  s = [] \/ Exists (fun c => char_in c HEX_CHARS = false) s.
Proof.
  unfold is_hex. rewrite andb_false_iff. split.
  - intros [Hall | Hlen].
    + right. induction s as [| c t IH]; [discriminate |].
      cbn [forallb] in Hall. apply andb_false_iff in Hall as [Hc | Ht].
      * now constructor 1.
      * constructor 2. now apply IH.
    + left. destruct s; [reflexivity |]. unfold len in Hlen. discriminate.
  - intros [-> | Hex]; [now right |]. left.
    induction Hex as [c t Hc | c t _ IH]; cbn [forallb].
    + now rewrite Hc.
    + rewrite IH. apply andb_false_r.
Qed.

(** ** Claims about the input normaliser *)

(** C3 (as stated, refuted): on the valid hex string ["10"] the prefixed
    input ["0x10"] is classified as a binary literal, so the result has 2
    bits instead of 8 and denotes 2 instead of 16. *)
Lemma hex_of_binary_digits_read_as_binary :
  hexstring (str "10")
  /\ process_input (str "0x" ++ str "10") = (Some (str "10"), None)
  /\ len (str "10") <> 4 * len (str "10")
  /\ int (str "10") 2 = Ok 2
  /\ int (str "10") 16 = Ok 16.
Proof.
  split; [apply is_hex_hexstring; reflexivity |].
  repeat split; try reflexivity. now vm_compute.
Qed.

(** C3 (amended): for every valid hex string [H] that has at least one
    digit other than 0 and 1, normalising ["0x" + H] succeeds with a bit
    string of exactly [4 * len H] bits, and reading that bit string in
    base 2 gives the same number as reading [H] in base 16. *)
Theorem hex_input_width_and_value (H : pystr) :
  hexstring H -> ~ bitstring H ->
  exists bits n,
    process_input (str "0x" ++ H) = (Some bits, None)
    /\ len bits = 4 * len H
    /\ int bits 2 = Ok n
    /\ int H 16 = Ok n.
Proof.
  intros Hhex Hnb. apply hexstring_digits in Hhex as [Hne Hd].
  destruct (hex_to_binary_digits H Hne Hd) as (b & Hb & Hlen & Hbne & Hbits & Hval).
  exists b, (digits_value 16 H).
  destruct (process_input_cases (str "0x" ++ H)) as [[Hbin _] | [Hc | Hc]];
    rewrite (cleaned_prefixed_hex H Hd) in *.
  - apply is_binary_bitstring in Hbin as [_ Hbin]. contradiction.
  - destruct Hc as (_ & _ & b' & Hb' & Hp). rewrite Hb in Hb'.
    injection Hb' as <-. repeat split; try assumption.
    + rewrite <- Hval. now apply int_of_digits.
    + now apply int_of_digits.
  - destruct Hc as (_ & Hh & _).
    assert (is_hex H = true) by (now apply is_hex_digits). congruence.
Qed.

Lemma hex_input_width_and_value_witness :
  hexstring (str "1A2b") /\ ~ bitstring (str "1A2b") /\
  exists bits n,
    process_input (str "0x" ++ str "1A2b") = (Some bits, None)
    /\ len bits = 4 * len (str "1A2b")
    /\ int bits 2 = Ok n
    /\ int (str "1A2b") 16 = Ok n.
Proof.
  assert (Hh : hexstring (str "1A2b")) by (apply is_hex_hexstring; reflexivity).
  assert (Hb : ~ bitstring (str "1A2b"))
    by (intros Hb; apply bitstring_digits in Hb; discriminate).
  split; [exact Hh |]. split; [exact Hb |].
  exact (hex_input_width_and_value (str "1A2b") Hh Hb).
Defined.

(** C10: on a non-empty string of hexadecimal digits [hex_to_binary]
    returns a bit string, never [None]; hence [process_input] never
    reports "Invalid hex input.": it either succeeds or reports "Input
    must be hex or binary", the latter exactly when the cleaned text is
    empty or has a character that is not a hexadecimal digit. *)
Theorem invalid_hex_branch_unreachable :
  (forall s, is_hex s = true ->
     exists b, hex_to_binary s = Some b /\ bitstring b)
  /\ (forall input, snd (process_input input) <> Some msg_invalid_hex)
  /\ (forall input,
        (exists b, process_input input = (Some b, None))
        \/ process_input input = (None, Some msg_hex_or_binary))
  /\ (forall input,
        process_input input = (None, Some msg_hex_or_binary) <->
        cleaned input = []
        \/ Exists (fun c => ~ In c HEX_CHARS) (cleaned input)).
Proof.
  repeat split.
  - intros s Hs. apply is_hex_digits in Hs as [Hne Hs].
    destruct (hex_to_binary_digits s Hne Hs) as (b & Hb & _ & _ & Hbits & _).
    exists b. split; [assumption | now apply bitstring_digits].
  - intros input.
    destruct (process_input_cases input)
      as [[_ ->] | [(_ & _ & b & _ & ->) | (_ & _ & ->)]]; discriminate.
  - intros input.
    destruct (process_input_cases input)
      as [[_ ->] | [(_ & _ & b & _ & ->) | (_ & _ & ->)]]; eauto.
  - intros Herr.
    destruct (process_input_cases input)
      as [[_ Hp] | [(_ & _ & b & _ & Hp) | (_ & Hh & _)]];
      try (rewrite Hp in Herr; discriminate).
    apply is_hex_false in Hh as [-> | Hex]; [now left | right].
    eapply Exists_impl; [exact Hex |]. intros c Hc Hin.
    apply char_in_In in Hin. congruence.
  - intros Hbad.
    assert (Hh : is_hex (cleaned input) = false).
    { apply is_hex_false. destruct Hbad as [-> | Hex]; [now left | right].
      eapply Exists_impl; [exact Hex |]. intros c Hc.
      destruct (char_in c HEX_CHARS) eqn:E; [| reflexivity].
      apply char_in_In in E. contradiction. }
    destruct (process_input_cases input)
      as [[Hb _] | [(_ & Hh' & _) | (_ & _ & Hp)]]; [| congruence | exact Hp].
    apply is_binary_is_hex in Hb. congruence.
Qed.

(** What [process_input] returns on success is a non-empty bit string. *)
Lemma process_input_bits (input b : pystr) :
  process_input input = (Some b, None) -> b <> [] /\ bitstring b.
Proof.
  intros Hp.
  destruct (process_input_cases input)
    as [[Hbin Hq] | [(_ & Hh & b' & Hb' & Hq) | (_ & _ & Hq)]];
    rewrite Hq in Hp; try discriminate; injection Hp as <-.
  - now apply is_binary_bitstring.
  - apply is_hex_digits in Hh as [Hne Hs].
    destruct (hex_to_binary_digits _ Hne Hs) as (b & Hb & _ & Hbne & Hbits & _).
    rewrite Hb in Hb'. injection Hb' as <-.
    split; [assumption | now apply bitstring_digits].
Qed.

(** Calculate never reaches [len(None)], and the only error it shows is
    the one about hex or binary input. *)
Lemma on_calculate_outcomes (FORMATS : list (pystr * Format))
  (show_fails : bool) (slice_mode input : pystr) :
  App.on_calculate FORMATS show_fails slice_mode input <> App.Crash
  /\ forall msg,
       App.on_calculate FORMATS show_fails slice_mode input
       = App.ShowError msg ->
       msg = msg_hex_or_binary.
Proof.
  unfold App.on_calculate.
  destruct (process_input_cases input)
    as [[_ ->] | [(_ & _ & b & _ & ->) | (_ & _ & ->)]].
  - destruct (App._detect_formats FORMATS (cleaned input)) as [[| ? ?] [| ? ?]];
      split; intros; discriminate.
  - destruct (App._detect_formats FORMATS b) as [[| ? ?] [| ? ?]];
      split; intros; discriminate.
  - split; [discriminate |]. intros msg [= <-]. reflexivity.
Qed.

(** ** Claims about the parity evaluator *)

Lemma parity_even_bit_needed_even (d : pystr) :
  parity_even_bit_needed d = (if Z.even (count_char "1" d) then 0 else 1).
Proof. unfold parity_even_bit_needed. now rewrite <- Zeven_mod. Qed.

Lemma parity_odd_bit_needed_even (d : pystr) :
  parity_odd_bit_needed d = (if Z.even (count_char "1" d) then 1 else 0).
Proof. unfold parity_odd_bit_needed. now rewrite <- Zeven_mod. Qed.

(** What [verify_range] reports for one range of a rule of type [typ]. *)
Lemma verify_range_report (b typ : pystr) (r : Z * Z) :
  (dict_lookup (verify_range b typ r) (str "type"),
   dict_lookup (verify_range b typ r) (str "coverage"),
   dict_lookup (verify_range b typ r) (str "expected"))
  = (Some (PyStr typ), Some (PyTuple2 (fst r) (snd r)),
     Some (PyInt
             (let n := count_char "1" (extract_bits b (fst r) (snd r)) in
              if str_eqb typ (str "even")
              then (if Z.even n then 0 else 1)
              else (if Z.even n then 1 else 0)))).
Proof.
  destruct r as [s e]. unfold verify_range. cbn [fst snd].
  rewrite parity_even_bit_needed_even, parity_odd_bit_needed_even.
  now destruct (str_eqb typ (str "even")).
Qed.

(** The rules [verify_parity] evaluates. *)
Lemma verify_parity_rules (b : pystr) (fmt : Format) :
  verify_parity b fmt
  = flat_map (verify_rule b)
      match parity_coverage fmt with
      | Some (CovList rules) => rules
      | Some (CovDict d) => rules_of_dict d
      | None => []
      end.
Proof.
  unfold verify_parity.
  now destruct (parity_coverage fmt) as [[[| ? ?] | [| ? ?]] |].
Qed.

(** C4: the expected parity bit is 0 for an even-parity rule when the
    number of ['1'] characters of the data bits is even and 1 otherwise;
    for an odd-parity rule it is the complement. With the parity bit the
    number of set bits is even for "even" and odd for "odd". The
    evaluator reports exactly these values as [expected]: for every rule
    of the format and every range of the rule, in order, [verify_parity]
    returns an entry with the rule's type (lower-cased, "even" when
    absent), the range as coverage, and the expected bit of that type for
    the data bits of the range. *)
Theorem expected_parity_bit (d : pystr) :
  let ones := count_char "1" d in
  parity_even_bit_needed d = (if Z.even ones then 0 else 1)
  /\ parity_odd_bit_needed d = (if Z.even ones then 1 else 0)
  /\ Z.even (ones + parity_even_bit_needed d) = true
  /\ Z.odd (ones + parity_odd_bit_needed d) = true
  /\ (forall b s e,
        extract_bits b s e = d ->
        dict_lookup (verify_range b (str "even") (s, e)) (str "expected")
        = Some (PyInt (if Z.even ones then 0 else 1))
        /\ dict_lookup (verify_range b (str "odd") (s, e)) (str "expected")
           = Some (PyInt (if Z.even ones then 1 else 0)))
  /\ (forall b fmt,
        let rules :=
          match parity_coverage fmt with
          | Some (CovList rules) => rules
          | Some (CovDict d) => rules_of_dict d
          | None => []
          end in
        map (fun r => (dict_lookup r (str "type"),
                       dict_lookup r (str "coverage"),
                       dict_lookup r (str "expected")))
          (verify_parity b fmt)
        = flat_map
            (fun rule =>
               let typ := lower (get (rule_type rule) (str "even")) in
               map (fun r =>
                      (Some (PyStr typ), Some (PyTuple2 (fst r) (snd r)),
                       Some (PyInt
                               (let n :=
                                  count_char "1"
                                    (extract_bits b (fst r) (snd r)) in
                                if str_eqb typ (str "even")
                                then (if Z.even n then 0 else 1)
                                else (if Z.even n then 1 else 0)))))
                 (get (rule_ranges rule) []))
            rules)
  /\ (forall b fmt rules rule s e,
        parity_coverage fmt = Some (CovList rules) ->
        In rule rules -> In (s, e) (get (rule_ranges rule) []) ->
        extract_bits b s e = d ->
        let typ := lower (get (rule_type rule) (str "even")) in
        exists r,
          In r (verify_parity b fmt)
          /\ dict_lookup r (str "type") = Some (PyStr typ)
          /\ dict_lookup r (str "coverage") = Some (PyTuple2 s e)
          /\ (typ = str "even" ->
              dict_lookup r (str "expected")
              = Some (PyInt (if Z.even ones then 0 else 1)))
          /\ (typ = str "odd" ->
              dict_lookup r (str "expected")
              = Some (PyInt (if Z.even ones then 1 else 0)))).
Proof.
  intros ones. unfold parity_even_bit_needed, parity_odd_bit_needed.
  fold ones.
  assert (Hmod : (ones mod 2 =? 0) = Z.even ones).
  { rewrite Zeven_mod. reflexivity. }
  rewrite Hmod.
  assert (Hsum : Z.even (ones + (if Z.even ones then 0 else 1)) = true
                 /\ Z.odd (ones + (if Z.even ones then 1 else 0)) = true).
  { rewrite Z.even_add, Z.odd_add, <- Z.negb_even.
    destruct (Z.even ones); split; reflexivity. }
  destruct Hsum as [He Ho].
  split; [reflexivity |]. split; [reflexivity |].
  split; [exact He |]. split; [exact Ho |].
  split; [| split].
  - intros b s e Hd. unfold verify_range. rewrite Hd.
    unfold parity_even_bit_needed, parity_odd_bit_needed. fold ones.
    rewrite Hmod. split; reflexivity.
  - intros b fmt. cbv zeta. rewrite verify_parity_rules.
    induction (match parity_coverage fmt with
               | Some (CovList rules) => rules
               | Some (CovDict d0) => rules_of_dict d0
               | None => []
               end) as [| rule rules IH]; [reflexivity |].
    cbn [flat_map]. rewrite map_app, IH. f_equal.
    unfold verify_rule. rewrite map_map. apply map_ext.
    intros r. apply verify_range_report.
  - intros b fmt rules rule s e Hcov Hrule Hrange Hd. cbv zeta.
    set (typ := lower (get (rule_type rule) (str "even"))).
    exists (verify_range b typ (s, e)).
    pose proof (verify_range_report b typ (s, e)) as Hrep.
    cbn [fst snd] in Hrep. rewrite Hd in Hrep. fold ones in Hrep.
    pose proof (f_equal (fun p => fst (fst p)) Hrep) as Ht.
    pose proof (f_equal (fun p => snd (fst p)) Hrep) as Hc.
    pose proof (f_equal snd Hrep) as Hx. cbn [fst snd] in Ht, Hc, Hx.
    split.
    { rewrite verify_parity_rules, Hcov. apply in_flat_map.
      exists rule. split; [assumption |]. unfold verify_rule.
      now apply in_map. }
    split; [exact Ht |]. split; [exact Hc |].
    rewrite Hx. split; intros ->; reflexivity.
Qed.

(** The even rule of H10301 on the sample card: reported as even, with
    expected bit 0 (no covered bit is set). *)
Example H10301_even_rule_on_sample :
  let fmt := snd (App.normalize_entry H10301) in
  map (fun r => (dict_lookup r (str "type"),
                 dict_lookup r (str "coverage"),
                 dict_lookup r (str "expected")))
    (verify_parity card26 fmt)
  = [ (Some (PyStr (str "even")), Some (PyTuple2 1 12), Some (PyInt 0));
      (Some (PyStr (str "odd")), Some (PyTuple2 13 24), Some (PyInt 1)) ].
Proof. vm_compute. reflexivity. Qed.

Lemma verify_range_indeterminate (b typ : pystr) (r : Z * Z) :
  dict_lookup (verify_range b typ r) (str "actual") = Some PyNone
  /\ dict_lookup (verify_range b typ r) (str "ok") = Some PyNone.
Proof. destruct r as [s e]. split; reflexivity. Qed.

Lemma verify_parity_entries (b : pystr) (fmt : Format)
  (r : list (pystr * pyval)) :
  In r (verify_parity b fmt) ->
  exists typ range, r = verify_range b typ range.
Proof.
  unfold verify_parity. intros Hr.
  assert (Hin : exists rules, In r (flat_map (verify_rule b) rules)).
  { destruct (parity_coverage fmt) as [[[| ? ?] | [| ? ?]] |];
      try contradiction; eauto. }
  destruct Hin as [rules Hin]. apply in_flat_map in Hin as (rule & _ & Hin).
  unfold verify_rule in Hin. apply in_map_iff in Hin as (range & <- & _).
  eauto.
Qed.

(** C8: every entry that [verify_parity] returns has [actual = None]
    and [ok = None], whatever the bit string and the format. *)
Theorem parity_entries_indeterminate (b : pystr) (fmt : Format) :
  Forall
    (fun r => dict_lookup r (str "actual") = Some PyNone
              /\ dict_lookup r (str "ok") = Some PyNone)
    (verify_parity b fmt).
Proof.
  apply List.Forall_forall. intros r Hr.
  destruct (verify_parity_entries b fmt r Hr) as (typ & range & ->).
  apply verify_range_indeterminate.
Qed.

(** The strict-mode filter accepts a format exactly when the evaluator
    returns no entry: an entry's ["ok"] key is present and holds [None],
    so [get] never falls back on its default. *)
Lemma parity_all_ok_iff_no_entry (b : pystr) (fmt : Format) :
  App._parity_all_ok b fmt = true <-> verify_parity b fmt = [].
Proof.
  unfold App._parity_all_ok.
  pose proof (verify_parity_entries b fmt) as Hall.
  destruct (verify_parity b fmt) as [| r pv]; [tauto |].
  split; [| discriminate].
  destruct (Hall r (or_introl eq_refl)) as (typ & range & ->).
  destruct (verify_range_indeterminate b typ range) as [_ Hok].
  cbn [forallb]. unfold dict_get. rewrite Hok. discriminate.
Qed.

Lemma normalize_parity_nil (ps : list RawParity) :
  ps = [] -> App.normalize_parity ps = [].
Proof. now intros ->. Qed.

(** C7: a format whose parity list is empty yields no ParityCheck
    entry and passes the strict-mode filter, for every bit string. *)
Theorem empty_parity_list_passes (f : RawFormat) (b : pystr) :
  get (f_parity f) [] = [] ->
  let fmt := snd (App.normalize_entry f) in
  verify_parity b fmt = [] /\ App._parity_all_ok b fmt = true.
Proof.
  intros Hp fmt.
  assert (Hv : verify_parity b fmt = []).
  { unfold verify_parity, fmt, App.normalize_entry. cbn [snd parity_coverage].
    now rewrite (normalize_parity_nil _ Hp). }
  split; [exact Hv | now apply parity_all_ok_iff_no_entry].
Qed.

Lemma empty_parity_list_passes_witness :
  get (f_parity CSN32) [] = []
  /\ verify_parity card26 (snd (App.normalize_entry CSN32)) = []
  /\ App._parity_all_ok card26 (snd (App.normalize_entry CSN32)) = true.
Proof.
  split; [reflexivity |].
  exact (empty_parity_list_passes CSN32 card26 eq_refl).
Defined.

(** C1 (the code departs from it): the H10301 format evaluated on a
    26-bit payload yields two entries whose status is unknown ([ok] is
    [None]) and none that fails, yet the strict-mode filter rejects the
    format. *)
Theorem strict_filter_blocks_unknown_status :
  let fmt := snd (App.normalize_entry H10301) in
  dict_lookup (App._normalize_formats DEFAULT_FORMATS) (str "H10301 - 26-bit")
  = Some fmt
  /\ map (fun r => dict_lookup r (str "ok")) (verify_parity card26 fmt)
     = [Some PyNone; Some PyNone]
  /\ App._parity_all_ok card26 fmt = false.
Proof. repeat split. Qed.

(** ** Claims about detection and slice selection *)

Lemma detect_fold (n : Z) (l exact compatible : list (pystr * Format)) :
  fold_left (App.detect_step n) l (exact, compatible)
  = (exact ++ List.filter (fun it => bit_length (snd it) =? n) l,
     compatible ++ List.filter (fun it => bit_length (snd it) <? n) l).
Proof.
  revert exact compatible.
  induction l as [| it l IH]; intros exact compatible; cbn [fold_left List.filter].
  - now rewrite !app_nil_r.
  - unfold App.detect_step at 2. rewrite (Z.eqb_sym (bit_length (snd it)) n).
    rewrite Z.gtb_ltb.
    destruct (Z.eqb_spec n (bit_length (snd it))) as [E | E].
    + rewrite IH, <- app_assoc.
      destruct (Z.ltb_spec (bit_length (snd it)) n); [lia | reflexivity].
    + destruct (bit_length (snd it) <? n); rewrite IH, <- ?app_assoc; reflexivity.
Qed.

Lemma detect_formats_filter (FORMATS : list (pystr * Format)) (b : pystr) :
  App._detect_formats FORMATS b
  = (List.filter (fun it => bit_length (snd it) =? len b) FORMATS,
     List.filter (fun it => bit_length (snd it) <? len b) FORMATS).
Proof. unfold App._detect_formats. now rewrite detect_fold. Qed.

(** C5: [_detect_formats] keeps, in catalogue order, the entries whose
    bit length equals the input length (exact) and those whose bit length
    is smaller (compatible); an entry whose bit length is larger is in
    neither list. *)
Theorem detect_formats_partition (FORMATS : list (pystr * Format))
  (b : pystr) :
  let n := len b in
  let exact := fst (App._detect_formats FORMATS b) in
  let compatible := snd (App._detect_formats FORMATS b) in
  exact = List.filter (fun it => bit_length (snd it) =? n) FORMATS
  /\ compatible = List.filter (fun it => bit_length (snd it) <? n) FORMATS
  /\ (forall it, In it FORMATS ->
        (bit_length (snd it) = n -> In it exact /\ ~ In it compatible)
        /\ (bit_length (snd it) < n -> In it compatible /\ ~ In it exact)
        /\ (n < bit_length (snd it) -> ~ In it exact /\ ~ In it compatible)).
Proof.
  intros n exact compatible. subst exact compatible.
  rewrite detect_formats_filter. cbn [fst snd]. fold n.
  split; [reflexivity |]. split; [reflexivity |].
  intros it Hit. rewrite !filter_In, Z.eqb_eq, Z.ltb_lt.
  repeat split; try assumption; lia.
Qed.



Lemma render_exact_bits (show_fails : bool) (b : pystr)
  (exact : list (pystr * Format)) (c : App.RenderCall) :
  In c (App.render_exact show_fails b exact) ->
  App.rc_bits c = b /\ exists name, In (name, App.rc_fmt c) exact.
Proof.
  unfold App.render_exact. intros Hc.
  apply in_flat_map in Hc as ([name fmt] & Hin & Hc).
  destruct (negb show_fails && negb (App._parity_all_ok b fmt));
    [contradiction |].
  destruct Hc as [<- | []]. cbn. eauto.
Qed.

Lemma render_compatible_bits (show_fails : bool) (mode b : pystr)
  (compatible : list (pystr * Format)) (c : App.RenderCall) :
  In c (App.render_compatible show_fails mode b compatible) ->
  App.rc_bits c = App.use_bits mode b (bit_length (App.rc_fmt c))
  /\ exists name, In (name, App.rc_fmt c) compatible.
Proof.
  unfold App.render_compatible. intros Hc.
  apply in_flat_map in Hc as ([name fmt] & Hin & Hc).
  destruct (negb show_fails && negb (App._parity_all_ok _ fmt));
    [contradiction |].
  destruct Hc as [<- | []]. cbn. eauto.
Qed.







(** The windows of the 30-bit sample against a 26-bit format. *)
Example windows_of_30_bits :
  App.use_bits (str "left") payload30 26 = str "10110000000010000000000000"
  /\ App.use_bits (str "right") payload30 26
     = str "00000000100000000000001101".
Proof. split; reflexivity. Qed.

(** A format without a bit length gets length 0; its rightmost window
    is then the whole input, since [b[-0:]] is [b[0:]]. *)
Example rightmost_window_of_length_zero :
  App.use_bits (str "right") payload30 0 = payload30.
Proof. reflexivity. Qed.

(** A 26-bit format is an exact match for 26 bits, a compatible match
    for 30 bits, and no match for 10 bits. *)
Example detect_H10301 :
  let FORMATS := [App.normalize_entry H10301] in
  App._detect_formats FORMATS card26 = (FORMATS, [])
  /\ App._detect_formats FORMATS payload30 = ([], FORMATS)
  /\ App._detect_formats FORMATS (str "1010101010") = ([], []).
Proof. repeat split. Qed.

(** ** Dictionaries *)

Section DictFacts.

Context {K V : Type} `{EqDecision K}.

Lemma dict_set_fresh (d : list (K * V)) (k : K) (v : V) :
  ~ In k (keys d) -> dict_set d k v = d ++ [(k, v)].
Proof.
  induction d as [| [k' v'] t IH]; intros Hk; cbn [dict_set app];
    [reflexivity |].
  cbn [keys map fst In] in Hk. destruct (decide (k = k')) as [-> | _];
    [tauto |].
  rewrite IH; [reflexivity |]. unfold keys. tauto.
Qed.

Lemma dict_set_keys (d : list (K * V)) (k : K) (v : V) :
  (In k (keys d) /\ keys (dict_set d k v) = keys d)
  \/ (~ In k (keys d) /\ keys (dict_set d k v) = keys d ++ [k]).
Proof.
  induction d as [| [k' v'] t IH]; cbn [dict_set keys map fst].
  - right. split; [intros [] | reflexivity].
  - destruct (decide (k = k')) as [-> | Hne].
    + left. split; [now left | reflexivity].
    + cbn [map fst]. fold (keys (dict_set t k v)). fold (keys t).
      destruct IH as [[Hin ->] | [Hnin ->]].
      * left. split; [now right | reflexivity].
      * right. split; [| reflexivity].
        intros [-> | Hin]; [now apply Hne | now apply Hnin].
Qed.

Lemma dict_set_nodup (d : list (K * V)) (k : K) (v : V) :
  NoDup (keys d) -> NoDup (keys (dict_set d k v)).
Proof.
  intros Hd. destruct (dict_set_keys d k v) as [[_ ->] | [Hk ->]];
    [assumption |].
  apply NoDup_app. repeat split; [assumption | | apply NoDup_singleton].
  intros x Hx Hx'. apply list_elem_of_In in Hx.
  apply list_elem_of_singleton in Hx'. now subst x.
Qed.

Lemma dict_fold_nodup {A} (key : A -> K) (val : A -> V) (items : list A)
  (acc : list (K * V)) :
  NoDup (keys acc) ->
  NoDup (keys (fold_left (fun d it => dict_set d (key it) (val it)) items acc)).
Proof.
  revert acc. induction items as [| it rest IH]; intros acc Hacc;
    cbn [fold_left]; [assumption |].
  now apply IH, dict_set_nodup.
Qed.

(** Filling a dictionary from items with distinct fresh keys keeps the
    items' order. *)
Lemma dict_fold_fresh {A} (key : A -> K) (val : A -> V) (items : list A)
  (acc : list (K * V)) :
  NoDup (map key items) ->
  (forall k, In k (map key items) -> ~ In k (keys acc)) ->
  fold_left (fun d it => dict_set d (key it) (val it)) items acc
  = acc ++ map (fun it => (key it, val it)) items.
Proof.
  revert acc. induction items as [| it rest IH]; intros acc Hnd Hfresh;
    cbn [fold_left map].
  - now rewrite app_nil_r.
  - apply NoDup_cons in Hnd as [Hit Hnd].
    rewrite dict_set_fresh by (apply Hfresh; now left).
    rewrite IH; [now rewrite <- app_assoc | assumption |].
    intros k Hk Hin. unfold keys in Hin. rewrite map_app in Hin.
    apply in_app_iff in Hin as [Hin | [<- | []]].
    + apply (Hfresh k); [now right | assumption].
    + apply Hit. now apply list_elem_of_In.
Qed.

Lemma dict_lookup_map {A} (key : A -> K) (val : A -> V) (items : list A)
  (it : A) :
  NoDup (map key items) -> In it items ->
  dict_lookup (map (fun it => (key it, val it)) items) (key it)
  = Some (val it).
Proof.
  induction items as [| x rest IH]; intros Hnd Hin; [contradiction |].
  apply NoDup_cons in Hnd as [Hx Hnd]. cbn [map dict_lookup].
  destruct Hin as [-> | Hin].
  - now destruct (decide (key it = key it)).
  - destruct (decide (key it = key x)) as [E | _]; [| now apply IH].
    exfalso. apply Hx. rewrite <- E. apply list_elem_of_In.
    now apply in_map.
Qed.

End DictFacts.

(** ** Claims about field extraction *)

Lemma bits_to_int_bitstring (s : pystr) :
  bitstring s -> bits_to_int s = Ok (digits_value 2 s).
Proof.
  intros Hs. unfold bits_to_int. case_bool_decide as Hnil.
  - now subst s.
  - apply (int_of_digits 2 s Hnil). now apply bitstring_digits.
Qed.

Lemma extract_bits_bitstring (b : pystr) (start end_ : Z) :
  bitstring b -> bitstring (extract_bits b start end_).
Proof. apply slice_Forall. Qed.

Lemma extract_fields_loop_bitstring (b : pystr)
  (items : list (pystr * (Z * Z)))
  (acc : list (pystr * list (pystr * pyval))) :
  bitstring b ->
  extract_fields_loop b items acc
  = Ok (fold_left
          (fun d it =>
             dict_set d (fst it) (field_value b (fst (snd it)) (snd (snd it))))
          items acc).
Proof.
  intros Hb. revert acc.
  induction items as [| [field [start end_]] rest IH]; intros acc;
    cbn [extract_fields_loop fold_left]; [reflexivity |].
  rewrite (bits_to_int_bitstring _ (extract_bits_bitstring b start end_ Hb)).
  cbn [bind fst snd]. now rewrite IH.
Qed.

(** On a bit string, [extract_fields] returns one entry per field, in
    the order of the format's fields. *)
Lemma extract_fields_bitstring (b : pystr) (fmt : Format) :
  bitstring b -> NoDup (keys (fields fmt)) ->
  extract_fields b fmt
  = Ok (map (fun it => (fst it, field_value b (fst (snd it)) (snd (snd it))))
          (fields fmt)).
Proof.
  intros Hb Hnd. unfold extract_fields.
  rewrite (extract_fields_loop_bitstring b _ _ Hb).
  now rewrite dict_fold_fresh by (assumption || (intros k _ [])).
Qed.

(** The fields of a normalized format have pairwise distinct names. *)
Lemma normalize_entry_fields_nodup (f : RawFormat) :
  NoDup (keys (fields (snd (App.normalize_entry f)))).
Proof.
  unfold App.normalize_entry, App.normalize_fields. cbn [snd fields].
  apply (dict_fold_nodup fld_name (fun fld => (fld_start fld, fld_end fld))).
  apply NoDup_nil_2.
Qed.

(** C2 (as stated, refuted): a field whose range ends beyond the bit
    string, or starts below 0, raises no error; the bits that remain
    after clamping are decoded. *)
Lemma out_of_range_field_is_decoded :
  let b := str "1011" in
  let fmt (s e : Z) :=
    {| bit_length := 8; fields := [(str "Card", (s, e))];
       parity_coverage := None |} in
  (len b <= 7
   /\ extract_fields b (fmt 2 7)
      = Ok [(str "Card", field_entry (str "11") 3 2 7)])
  /\ (-3 < 0
      /\ extract_fields b (fmt (-3) 2)
         = Ok [(str "Card", field_entry (str "01") 1 (-3) 2)]).
Proof. repeat split; try reflexivity; vm_compute; discriminate. Qed.

(** C2 (amended): extracting the inclusive range [start, end] from a
    bit string never fails. The range is clamped as a Python slice: the
    result is a bit string no longer than the input, it is decoded as an
    unsigned binary number, it is [b[start:len b]] when [end >= len b],
    and it has all its [end - start + 1] bits when
    [0 <= start <= end < len b]. No format makes [extract_fields] raise. *)
Theorem extraction_clamps_without_error (b : pystr) (start end_ : Z) :
  bitstring b ->
  let bits := extract_bits b start end_ in
  bitstring bits
  /\ len bits <= len b
  /\ bits_to_int bits = Ok (digits_value 2 bits)
  /\ (len b <= end_ -> bits = slice b (Some start) (Some (len b)))
  /\ (0 <= start -> start <= end_ -> end_ < len b ->
      len bits = end_ - start + 1)
  /\ (forall fmt, exists result, extract_fields b fmt = Ok result).
Proof.
  intros Hb bits.
  assert (Hbits : bitstring bits) by (now apply extract_bits_bitstring).
  split; [exact Hbits |].
  split; [apply slice_length_le |].
  split; [now apply bits_to_int_bitstring |].
  split; [intros He; apply slice_beyond; lia |].
  split.
  - intros H0 Hse He. subst bits. unfold extract_bits.
    destruct (slice_inside b start (end_ + 1) ltac:(lia) ltac:(lia))
      as [_ ->]. lia.
  - intros fmt. unfold extract_fields.
    rewrite (extract_fields_loop_bitstring b _ _ Hb). eauto.
Qed.

Lemma extraction_clamps_without_error_witness :
  bitstring (str "1011")
  /\ let bits := extract_bits (str "1011") 2 7 in
     bitstring bits
     /\ len bits <= len (str "1011")
     /\ bits_to_int bits = Ok (digits_value 2 bits)
     /\ (len (str "1011") <= 7 ->
         bits = slice (str "1011") (Some 2) (Some (len (str "1011"))))
     /\ (0 <= 2 -> 2 <= 7 -> 7 < len (str "1011") -> len bits = 7 - 2 + 1)
     /\ (forall fmt, exists result, extract_fields (str "1011") fmt = Ok result).
Proof.
  assert (Hb : bitstring (str "1011")) by (apply bitstring_digits; reflexivity).
  split; [exact Hb |].
  exact (extraction_clamps_without_error (str "1011") 2 7 Hb).
Defined.

(** C9: on a bit string, [extract_fields] returns normally, with one
    entry per field. For a field whose inclusive range ends at or beyond
    the end of the bit string, the entry's bits are [b[start:len b]]
    (decoded to 0 when empty), while its [len] is still
    [end - start + 1], which exceeds the number of bits reported
    whenever [start <= end]. *)
Theorem extract_fields_truncates_silently (b : pystr) (fmt : Format) :
  bitstring b -> NoDup (keys (fields fmt)) ->
  exists result,
    extract_fields b fmt = Ok result
    /\ keys result = keys (fields fmt)
    /\ forall name start end_,
         In (name, (start, end_)) (fields fmt) -> len b <= end_ ->
         exists entry,
           dict_lookup result name = Some entry
           /\ let bits := slice b (Some start) (Some (len b)) in
              dict_lookup entry (str "bits") = Some (PyStr bits)
              /\ dict_lookup entry (str "int")
                 = Some (PyInt (digits_value 2 bits))
              /\ (bits = [] -> dict_lookup entry (str "int") = Some (PyInt 0))
              /\ dict_lookup entry (str "len")
                 = Some (PyInt (end_ - start + 1))
              /\ (start <= end_ -> len bits < end_ - start + 1).
Proof.
  intros Hb Hnd. eexists. split; [now apply extract_fields_bitstring |].
  split.
  { unfold keys. rewrite map_map. reflexivity. }
  intros name start end_ Hin Hend.
  exists (field_value b start end_). split.
  { apply (dict_lookup_map fst
             (fun it => field_value b (fst (snd it)) (snd (snd it)))
             (fields fmt) (name, (start, end_))); assumption. }
  unfold field_value, extract_bits.
  rewrite (slice_beyond b start (end_ + 1)) by lia.
  set (bits := slice b (Some start) (Some (len b))). cbv zeta.
  repeat split.
  - intros ->. reflexivity.
  - intros Hse. subst bits. pose proof (len_nonneg b).
    destruct (Z.le_gt_cases 0 start) as [H0 | H0].
    + rewrite slice_length_clamped; lia.
    + pose proof (slice_length_negative_start b start (len b) H0). lia.
Qed.

Lemma extract_fields_truncates_silently_witness :
  let b := str "1011" in
  let fmt := {| bit_length := 8; fields := [(str "Card", (2, 7))];
                parity_coverage := None |} in
  bitstring b /\ NoDup (keys (fields fmt))
  /\ exists result,
       extract_fields b fmt = Ok result
       /\ keys result = keys (fields fmt)
       /\ forall name start end_,
            In (name, (start, end_)) (fields fmt) -> len b <= end_ ->
            exists entry,
              dict_lookup result name = Some entry
              /\ let bits := slice b (Some start) (Some (len b)) in
                 dict_lookup entry (str "bits") = Some (PyStr bits)
                 /\ dict_lookup entry (str "int")
                    = Some (PyInt (digits_value 2 bits))
                 /\ (bits = [] ->
                     dict_lookup entry (str "int") = Some (PyInt 0))
                 /\ dict_lookup entry (str "len")
                    = Some (PyInt (end_ - start + 1))
                 /\ (start <= end_ -> len bits < end_ - start + 1).
Proof.
  intros b fmt.
  assert (Hb : bitstring b) by (apply bitstring_digits; reflexivity).
  assert (Hnd : NoDup (keys (fields fmt)))
    by (apply NoDup_cons_2; [apply not_elem_of_nil | apply NoDup_nil_2]).
  split; [exact Hb |]. split; [exact Hnd |].
  exact (extract_fields_truncates_silently b fmt Hb Hnd).
Defined.

(** * Further properties of the decoding core *)

(** ** More on the input normaliser *)

Lemma lstrip_head (a : ascii) (t : pystr) :
  is_space a = false -> lstrip (a :: t) = a :: t.
Proof. intros Ha. cbn [lstrip]. now rewrite Ha. Qed.

Lemma strip_ends (a b : ascii) (t : pystr) :
  is_space a = false -> is_space b = false ->
  strip (a :: t ++ [b]) = a :: t ++ [b].
Proof.
  intros Ha Hb. unfold strip, rstrip. rewrite (lstrip_head a _ Ha).
  change (a :: t ++ [b]) with ((a :: t) ++ [b]).
  rewrite rev_unit, (lstrip_head b _ Hb).
  now rewrite <- (rev_unit (a :: t) b), rev_involutive.
Qed.

Lemma strip_one (a : ascii) : is_space a = false -> strip [a] = [a].
Proof. intros Ha. unfold strip, rstrip. cbn. rewrite Ha. cbn. now rewrite Ha. Qed.

Lemma not_prefixed_0x (s : pystr) :
  forallb (is_digit 16) s = true ->
  startswith s (str "0x") || startswith s (str "0X") = false.
Proof.
  destruct s as [| a [| b t]]; [reflexivity | |].
  - intros _. cbn. now rewrite !andb_false_r.
  - cbn [forallb]. rewrite !andb_true_iff. intros (_ & Hb & _).
    assert (Ascii.eqb b "x" = false /\ Ascii.eqb b "X" = false) as [E1 E2].
    { split; [destruct (Ascii.eqb_spec b "x") | destruct (Ascii.eqb_spec b "X")];
        try reflexivity; subst b; discriminate. }
    cbn. rewrite E1, E2. cbn. now rewrite !andb_false_r.
Qed.

Lemma remove_char_filter (c : ascii) (s : pystr) :
  remove_char c s = List.filter (fun x => negb (Ascii.eqb x c)) s.
Proof.
  induction s as [| x t IH]; [reflexivity |]. cbn [remove_char List.filter].
  destruct (Ascii.eqb x c); cbn [negb]; now rewrite IH.
Qed.

Lemma filter_filter_bool {A} (f g : A -> bool) (l : list A) :
  List.filter f (List.filter g l) = List.filter (fun x => g x && f x) l.
Proof.
  induction l as [| x t IH]; [reflexivity |]. cbn [List.filter].
  destruct (g x); cbn [List.filter andb]; [destruct (f x) |]; now rewrite IH.
Qed.

Lemma filter_pointwise {A} (f g : A -> bool) (l : list A) :
  (forall x, In x l -> f x = g x) -> List.filter f l = List.filter g l.
Proof.
  induction l as [| x t IH]; intros E; [reflexivity |]. cbn [List.filter].
  rewrite (E x (or_introl eq_refl)), IH; [reflexivity |].
  intros y Hy. apply E. now right.
Qed.

Lemma separator_not_digit (c : ascii) :
  is_separator c = true -> is_digit 16 c = false.
Proof.
  unfold is_separator. rewrite !orb_true_iff, !Ascii.eqb_eq.
  intros [[-> | ->] | ->]; reflexivity.
Qed.

Lemma digit_not_separator (c : ascii) :
  is_digit 16 c = true -> is_separator c = false.
Proof.
  intros Hd. destruct (is_separator c) eqn:E; [| reflexivity].
  apply separator_not_digit in E. congruence.
Qed.

(** The cleaned text of digits and separators that starts and ends with
    a digit is the digits alone. *)
Lemma cleaned_digits_and_separators (s : pystr) :
  forallb (fun c => is_digit 16 c || is_separator c) s = true ->
  (exists a t, s = a :: t /\ is_digit 16 a = true) ->
  (exists t b, s = t ++ [b] /\ is_digit 16 b = true) ->
  cleaned s = List.filter (is_digit 16) s.
Proof.
  intros Hall (a & t & Ea & Ha) (t' & b & Eb & Hb).
  assert (Hstrip : strip s = s).
  { destruct t' as [| a' t'].
    - cbn in Eb. rewrite Eb. apply strip_one, (digit_not_space 16 b Hb).
    - rewrite Eb in Ea. cbn in Ea. injection Ea as -> _. rewrite Eb.
      apply (strip_ends a b t'); eauto using digit_not_space. }
  unfold cleaned, clean_input. rewrite Hstrip.
  assert (Hrm : remove_char "_" (remove_char "-" (remove_char " " s))
                = List.filter (is_digit 16) s).
  { rewrite !remove_char_filter, !filter_filter_bool.
    apply filter_pointwise. intros c Hc.
    rewrite forallb_forall in Hall. specialize (Hall c Hc).
    apply orb_true_iff in Hall as [Hd | Hs].
    - rewrite Hd. destruct (hex_digit_plain c Hd) as (_ & -> & -> & ->).
      reflexivity.
    - rewrite (separator_not_digit c Hs). unfold is_separator in Hs.
      destruct (Ascii.eqb c " "), (Ascii.eqb c "-"), (Ascii.eqb c "_");
        try reflexivity; discriminate. }
  rewrite Hrm. rewrite not_prefixed_0x; [reflexivity |].
  apply forallb_forall. intros c Hc. now apply filter_In in Hc.
Qed.

Lemma cleaned_digits (s : pystr) :
  forallb (is_digit 16) s = true -> cleaned s = s.
Proof.
  intros Hs. destruct s as [| a t]; [reflexivity |].
  rewrite cleaned_digits_and_separators.
  - apply forallb_filter_id, Hs.
  - apply forallb_forall. intros c Hc. rewrite forallb_forall in Hs.
    now rewrite (Hs c Hc).
  - cbn [forallb] in Hs. apply andb_true_iff in Hs as [Ha _]. eauto.
  - destruct (exists_last (l := a :: t) ltac:(discriminate)) as (t' & b & E).
    exists t', b. split; [exact E |]. rewrite forallb_forall in Hs.
    apply Hs. rewrite E. apply in_or_app. right. now left.
Qed.

Lemma process_input_cleaned (s s' : pystr) :
  cleaned s = cleaned s' -> process_input s = process_input s'.
Proof. unfold process_input. now intros ->. Qed.

Lemma process_input_of_bits (B : pystr) :
  B <> [] -> bitstring B -> process_input B = (Some B, None).
Proof.
  intros Hne HB. apply bitstring_digits in HB.
  assert (H16 : forallb (is_digit 16) B = true).
  { rewrite forallb_forall in *. intros c Hc.
    now apply binary_digit_is_hex_digit, HB. }
  unfold process_input. rewrite (cleaned_digits B H16).
  now rewrite (proj2 (is_binary_digits B) (conj Hne HB)).
Qed.

(** X1. Binary input is returned unchanged. *)
Theorem process_input_binary_unchanged (B : pystr) :
  B <> [] -> bitstring B -> process_input B = (Some B, None).
Proof. apply process_input_of_bits. Qed.

Lemma process_input_binary_unchanged_witness :
  card26 <> [] /\ bitstring card26
  /\ process_input card26 = (Some card26, None).
Proof.
  assert (Hne : card26 <> []) by discriminate.
  assert (Hb : bitstring card26) by (apply bitstring_digits; reflexivity).
  split; [exact Hne |]. split; [exact Hb |].
  exact (process_input_binary_unchanged card26 Hne Hb).
Defined.

(** X2. Normalising is idempotent: what [process_input] returns is a
    non-empty bit string, and normalising it again returns it unchanged. *)
Theorem process_input_idempotent (input b : pystr) :
  process_input input = (Some b, None) ->
  b <> [] /\ bitstring b /\ process_input b = (Some b, None).
Proof.
  intros Hp. destruct (process_input_bits input b Hp) as [Hne Hb].
  repeat split; try assumption. now apply process_input_of_bits.
Qed.

Lemma process_input_idempotent_witness :
  process_input (str " 0x1A-2b ") = (Some (str "0001101000101011"), None)
  /\ str "0001101000101011" <> []
  /\ bitstring (str "0001101000101011")
  /\ process_input (str "0001101000101011")
     = (Some (str "0001101000101011"), None).
Proof.
  assert (Hp : process_input (str " 0x1A-2b ")
               = (Some (str "0001101000101011"), None)) by reflexivity.
  split; [exact Hp |].
  exact (process_input_idempotent (str " 0x1A-2b ") _ Hp).
Defined.

Lemma cleaned_prefixed_hex_upper (H : pystr) :
  forallb (is_digit 16) H = true -> cleaned (str "0X" ++ H) = H.
Proof.
  intros HH. rewrite forallb_forall in HH.
  assert (Hall : forall P : ascii -> Prop,
             P "0"%char -> P "X"%char ->
             (forall c, is_digit 16 c = true -> P c) ->
             Forall P (str "0X" ++ H)).
  { intros P P0 Px Pd. repeat constructor; try assumption.
    apply Forall_forall. intros c Hc. apply Pd, HH. now apply list_elem_of_In. }
  unfold cleaned, clean_input.
  rewrite strip_no_space
    by (apply Hall; [reflexivity .. | intros c Hc; apply (hex_digit_plain c Hc)]).
  rewrite (remove_char_absent " " (str "0X" ++ H)),
    (remove_char_absent "-" (str "0X" ++ H)),
    (remove_char_absent "_" (str "0X" ++ H))
    by (apply Hall; [reflexivity .. | intros c Hc; apply (hex_digit_plain c Hc)]).
  replace (startswith (str "0X" ++ H) (str "0X")) with true
    by (destruct H; reflexivity).
  rewrite orb_true_r. now rewrite slice_from by lia.
Qed.

(** X3. The prefix is optional: on hexadecimal digits, [0x], [0X] and
    no prefix give the same result. *)
Theorem hex_prefix_optional (H : pystr) :
  hexstring H ->
  process_input (str "0x" ++ H) = process_input H
  /\ process_input (str "0X" ++ H) = process_input H.
Proof.
  intros Hh. apply hexstring_digits in Hh as [_ Hd].
  split; apply process_input_cleaned; rewrite (cleaned_digits H Hd).
  - now apply cleaned_prefixed_hex.
  - now apply cleaned_prefixed_hex_upper.
Qed.

Lemma hex_prefix_optional_witness :
  hexstring (str "1A2b")
  /\ process_input (str "0x" ++ str "1A2b") = process_input (str "1A2b")
  /\ process_input (str "0X" ++ str "1A2b") = process_input (str "1A2b").
Proof.
  assert (Hh : hexstring (str "1A2b")) by (apply is_hex_hexstring; reflexivity).
  split; [exact Hh |]. exact (hex_prefix_optional (str "1A2b") Hh).
Defined.

(** X4. Spaces, hyphens and underscores between hexadecimal digits are
    ignored. *)
Theorem separators_ignored (s : pystr) :
  forallb (fun c => is_digit 16 c || is_separator c) s = true ->
  (exists a t, s = a :: t /\ is_digit 16 a = true) ->
  (exists t b, s = t ++ [b] /\ is_digit 16 b = true) ->
  process_input s
  = process_input (List.filter (fun c => negb (is_separator c)) s).
Proof.
  intros Hall Hhead Hlast.
  assert (E : List.filter (fun c => negb (is_separator c)) s
              = List.filter (is_digit 16) s).
  { apply filter_pointwise. intros c Hc. rewrite forallb_forall in Hall.
    specialize (Hall c Hc). apply orb_true_iff in Hall as [Hd | Hs].
    - now rewrite Hd, (digit_not_separator c Hd).
    - now rewrite Hs, (separator_not_digit c Hs). }
  rewrite E. apply process_input_cleaned.
  rewrite (cleaned_digits_and_separators s Hall Hhead Hlast).
  symmetry. apply cleaned_digits, forallb_forall.
  intros c Hc. now apply filter_In in Hc.
Qed.

Lemma separators_ignored_witness :
  let s := str "1A-2b_3 4" in
  forallb (fun c => is_digit 16 c || is_separator c) s = true
  /\ (exists a t, s = a :: t /\ is_digit 16 a = true)
  /\ (exists t b, s = t ++ [b] /\ is_digit 16 b = true)
  /\ process_input s
     = process_input (List.filter (fun c => negb (is_separator c)) s).
Proof.
  intros s.
  assert (H1 : forallb (fun c => is_digit 16 c || is_separator c) s = true)
    by reflexivity.
  assert (H2 : exists a t, s = a :: t /\ is_digit 16 a = true)
    by (exists "1"%char, (str "A-2b_3 4"); split; reflexivity).
  assert (H3 : exists t b, s = t ++ [b] /\ is_digit 16 b = true)
    by (exists (str "1A-2b_3 "), "4"%char; split; reflexivity).
  split; [exact H1 |]. split; [exact H2 |]. split; [exact H3 |].
  exact (separators_ignored s H1 H2 H3).
Defined.

Lemma lower_char_hex_digit (c : ascii) :
  is_digit 16 c = true ->
  digit_value (lower_char c) = digit_value c
  /\ is_digit 16 (lower_char c) = true
  /\ is_digit 2 (lower_char c) = is_digit 2 c.
Proof.
  destruct c as [[] [] [] [] [] [] [] []]; vm_compute; intros H;
    try discriminate H; repeat split.
Qed.

Lemma lower_hex_digits (s : pystr) :
  forallb (is_digit 16) s = true ->
  forallb (is_digit 16) (lower s) = true
  /\ forallb (is_digit 2) (lower s) = forallb (is_digit 2) s
  /\ forall acc, digits_from 16 (lower s) acc = digits_from 16 s acc.
Proof.
  induction s as [| c t IH]; intros Hs; [repeat split |].
  cbn [forallb] in Hs. apply andb_true_iff in Hs as [Hc Ht].
  destruct (lower_char_hex_digit c Hc) as (Ev & E16 & E2).
  destruct (IH Ht) as (IH16 & IH2 & IHv).
  unfold lower in *. cbn [map forallb]. rewrite E16, E2, IH16, IH2.
  repeat split. intros acc. unfold digits_from in *. cbn [fold_left].
  rewrite Ev. apply IHv.
Qed.

Lemma lower_binary (s : pystr) :
  forallb (is_digit 2) s = true -> lower s = s.
Proof.
  induction s as [| c t IH]; intros Hs; [reflexivity |].
  cbn [forallb] in Hs. apply andb_true_iff in Hs as [Hc Ht].
  unfold lower in *. cbn [map]. rewrite (IH Ht). f_equal.
  revert Hc. clear. by_cases_on_char c.
Qed.

(** X5. Hexadecimal input is read without regard to letter case. *)
Theorem hex_case_insensitive (H : pystr) :
  hexstring H -> process_input (lower H) = process_input H.
Proof.
  intros Hh. apply hexstring_digits in Hh as [Hne Hd].
  destruct (lower_hex_digits H Hd) as (Hd' & Hb' & Hv').
  assert (Hne' : lower H <> []) by (destruct H; [congruence | discriminate]).
  destruct (forallb (is_digit 2) H) eqn:Eb.
  - now rewrite (lower_binary H Eb).
  - unfold process_input.
    rewrite (cleaned_digits H Hd), (cleaned_digits _ Hd').
    assert (Hnb : is_binary H = false).
    { destruct (is_binary H) eqn:E; [| reflexivity].
      apply is_binary_digits in E as [_ E]. congruence. }
    assert (Hnb' : is_binary (lower H) = false).
    { destruct (is_binary (lower H)) eqn:E; [| reflexivity].
      apply is_binary_digits in E as [_ E]. congruence. }
    rewrite Hnb, Hnb'.
    rewrite (proj2 (is_hex_digits H) (conj Hne Hd)),
      (proj2 (is_hex_digits _) (conj Hne' Hd')).
    unfold hex_to_binary.
    rewrite (int_of_digits 16 H Hne Hd), (int_of_digits 16 _ Hne' Hd').
    unfold digits_value. rewrite Hv'. unfold len, lower.
    now rewrite length_map.
Qed.

Lemma hex_case_insensitive_witness :
  hexstring (str "1A2b")
  /\ process_input (lower (str "1A2b")) = process_input (str "1A2b").
Proof.
  assert (Hh : hexstring (str "1A2b")) by (apply is_hex_hexstring; reflexivity).
  split; [exact Hh |]. exact (hex_case_insensitive (str "1A2b") Hh).
Defined.

(** ** More on field extraction *)

Lemma digits_from_acc (base : Z) (s : pystr) (acc : Z) :
  digits_from base s acc = acc * base ^ len s + digits_value base s.
Proof.
  unfold digits_value. revert acc.
  induction s as [| c t IH]; intros acc.
  - unfold digits_from, len. cbn. lia.
  - unfold digits_from in *. cbn [fold_left].
    rewrite (IH (acc * base + _)), (IH (0 * base + _)).
    replace (len (c :: t)) with (len t + 1)
      by (unfold len; cbn [length]; lia).
    rewrite Z.pow_add_r, Z.pow_1_r by (unfold len; lia). ring.
Qed.

Lemma bitstring_value_bounds (s : pystr) :
  bitstring s -> 0 <= digits_value 2 s < 2 ^ len s.
Proof.
  intros Hs. apply bitstring_digits in Hs.
  pose proof (digits_from_bounds 2 ltac:(lia) s Hs 0 ltac:(lia)) as H.
  unfold digits_value. lia.
Qed.

Lemma extract_bits_inside (b : pystr) (start end_ : Z) :
  0 <= start -> start <= end_ + 1 -> end_ < len b ->
  extract_bits b start end_
  = take (Z.to_nat (end_ + 1 - start)) (drop (Z.to_nat start) b)
  /\ len (extract_bits b start end_) = end_ - start + 1.
Proof.
  intros H0 Hse He. unfold extract_bits.
  destruct (slice_inside b start (end_ + 1) ltac:(lia) ltac:(lia)) as [E L].
  split; [exact E | lia].
Qed.

(** X6. A field that lies inside the bit string has all its
    [end - start + 1] bits, its [len] entry is the number of bits, and its
    integer value is below [2 ^ (end - start + 1)]. *)
Theorem field_inside_is_complete (b : pystr) (fmt : Format)
  (name : pystr) (start end_ : Z) :
  bitstring b -> NoDup (keys (fields fmt)) ->
  In (name, (start, end_)) (fields fmt) ->
  0 <= start -> start <= end_ -> end_ < len b ->
  exists result entry bits n,
    extract_fields b fmt = Ok result
    /\ dict_lookup result name = Some entry
    /\ dict_lookup entry (str "bits") = Some (PyStr bits)
    /\ dict_lookup entry (str "int") = Some (PyInt n)
    /\ dict_lookup entry (str "len") = Some (PyInt (len bits))
    /\ len bits = end_ - start + 1
    /\ 0 <= n < 2 ^ (end_ - start + 1).
Proof.
  intros Hb Hnd Hin H0 Hse He.
  destruct (extract_bits_inside b start end_ H0 ltac:(lia) He) as [_ Hlen].
  pose proof (bitstring_value_bounds _ (extract_bits_bitstring b start end_ Hb))
    as Hval. rewrite Hlen in Hval.
  eexists _, (field_value b start end_), (extract_bits b start end_), _.
  split; [now apply extract_fields_bitstring |].
  split.
  { apply (dict_lookup_map fst
             (fun it => field_value b (fst (snd it)) (snd (snd it)))
             (fields fmt) (name, (start, end_))); assumption. }
  unfold field_value. rewrite Hlen.
  repeat split; try reflexivity; apply Hval.
Qed.

Lemma field_inside_is_complete_witness :
  let b := str "11000000001000000000000011" in
  let fmt := snd (App.normalize_entry H10301) in
  bitstring b /\ NoDup (keys (fields fmt))
  /\ In (str "Facility", (1, 8)) (fields fmt)
  /\ 0 <= 1 /\ 1 <= 8 /\ 8 < len b
  /\ exists result entry bits n,
       extract_fields b fmt = Ok result
       /\ dict_lookup result (str "Facility") = Some entry
       /\ dict_lookup entry (str "bits") = Some (PyStr bits)
       /\ dict_lookup entry (str "int") = Some (PyInt n)
       /\ dict_lookup entry (str "len") = Some (PyInt (len bits))
       /\ len bits = 8 - 1 + 1
       /\ 0 <= n < 2 ^ (8 - 1 + 1).
Proof.
  intros b fmt.
  assert (Hb : bitstring b) by (apply bitstring_digits; reflexivity).
  assert (Hnd : NoDup (keys (fields fmt)))
    by apply normalize_entry_fields_nodup.
  assert (Hin : In (str "Facility", (1, 8)) (fields fmt))
    by (right; left; reflexivity).
  assert (H0 : 0 <= 1) by discriminate.
  assert (H1 : 1 <= 8) by discriminate.
  assert (H2 : 8 < len b) by reflexivity.
  repeat (split; [assumption |]).
  exact (field_inside_is_complete b fmt _ 1 8 Hb Hnd Hin H0 H1 H2).
Defined.

Lemma take_plus {A} (n k : nat) (l : list A) :
  take (n + k) l = take n l ++ take k (drop n l).
Proof.
  revert l. induction n as [| n IH]; intros l; [reflexivity |].
  destruct l as [| x t]; cbn; [now destruct k | now rewrite IH].
Qed.

(** X7. Two adjacent ranges compose: the bits of [start..end] are the
    bits of [start..mid] followed by those of [mid+1..end], and the value
    is the high part shifted by the width of the low part, plus the low
    part. *)
Theorem adjacent_fields_compose (b : pystr) (start mid end_ : Z) :
  bitstring b ->
  0 <= start -> start <= mid + 1 -> mid <= end_ -> end_ < len b ->
  extract_bits b start end_
  = extract_bits b start mid ++ extract_bits b (mid + 1) end_
  /\ exists hi lo,
       bits_to_int (extract_bits b start mid) = Ok hi
       /\ bits_to_int (extract_bits b (mid + 1) end_) = Ok lo
       /\ bits_to_int (extract_bits b start end_)
          = Ok (hi * 2 ^ (end_ - mid) + lo).
Proof.
  intros Hb H0 Hsm Hme He.
  destruct (extract_bits_inside b start end_ H0 ltac:(lia) He) as [E _].
  destruct (extract_bits_inside b start mid H0 ltac:(lia) ltac:(lia))
    as [E1 _].
  destruct (extract_bits_inside b (mid + 1) end_ ltac:(lia) ltac:(lia) He)
    as [E2 L2].
  assert (Happ : extract_bits b start end_
                 = extract_bits b start mid ++ extract_bits b (mid + 1) end_).
  { rewrite E, E1, E2.
    replace (Z.to_nat (end_ + 1 - start))
      with (Z.to_nat (mid + 1 - start) + Z.to_nat (end_ + 1 - (mid + 1)))%nat
      by lia.
    rewrite take_plus, drop_drop. do 3 f_equal. lia. }
  split; [exact Happ |].
  exists (digits_value 2 (extract_bits b start mid)),
    (digits_value 2 (extract_bits b (mid + 1) end_)).
  rewrite !bits_to_int_bitstring by (now apply extract_bits_bitstring).
  repeat split. f_equal. rewrite Happ. unfold digits_value at 1.
  rewrite digits_from_app, digits_from_acc, L2.
  fold (digits_value 2 (extract_bits b start mid)).
  replace (end_ - (mid + 1) + 1) with (end_ - mid) by lia. reflexivity.
Qed.

Lemma adjacent_fields_compose_witness :
  let b := str "11000000001000000000000011" in
  bitstring b /\ 0 <= 1 /\ 1 <= 8 + 1 /\ 8 <= 24 /\ 24 < len b
  /\ extract_bits b 1 24 = extract_bits b 1 8 ++ extract_bits b (8 + 1) 24
  /\ exists hi lo,
       bits_to_int (extract_bits b 1 8) = Ok hi
       /\ bits_to_int (extract_bits b (8 + 1) 24) = Ok lo
       /\ bits_to_int (extract_bits b 1 24) = Ok (hi * 2 ^ (24 - 8) + lo).
Proof.
  intros b.
  assert (Hb : bitstring b) by (apply bitstring_digits; reflexivity).
  assert (H0 : 0 <= 1) by discriminate.
  assert (H1 : 1 <= 8 + 1) by discriminate.
  assert (H2 : 8 <= 24) by discriminate.
  assert (H3 : 24 < len b) by reflexivity.
  repeat (split; [assumption |]).
  exact (adjacent_fields_compose b 1 8 24 Hb H0 H1 H2 H3).
Defined.

Lemma hex_chars_acc (d : Hexadecimal.uint) :
  forall acc,
    Zpos (Pos.of_hex_uint_acc d acc) = digits_from 16 (hex_chars d) (Zpos acc).
Proof.
  induction d; intros acc; [reflexivity | ..];
    unfold hex_chars, digits_from in *;
    cbn [NilEmpty.string_of_uint str list_ascii_of_string map fold_left
           Pos.of_hex_uint_acc];
    rewrite IHd; f_equal;
    match goal with
    | |- context [digit_value ?c] =>
        let v := eval vm_compute in (get (digit_value c) 0) in
        change (get (digit_value c) 0) with v
    end; lia.
Qed.

Lemma hex_chars_value (d : Hexadecimal.uint) :
  Z.of_N (Pos.of_hex_uint d) = digits_from 16 (hex_chars d) 0.
Proof.
  induction d; [reflexivity | ..];
    unfold hex_chars, digits_from in *;
    cbn [NilEmpty.string_of_uint str list_ascii_of_string map fold_left
           Pos.of_hex_uint];
    [ rewrite IHd; f_equal | .. ].
  all: try (rewrite N2Z.inj_pos, hex_chars_acc;
            unfold hex_chars, digits_from; f_equal).
  all: match goal with
       | |- context [digit_value ?c] =>
           let v := eval vm_compute in (get (digit_value c) 0) in
           change (get (digit_value c) 0) with v
       end; reflexivity.
Qed.

Lemma hex_chars_digits (d : Hexadecimal.uint) :
  forallb (is_digit 16) (hex_chars d) = true.
Proof.
  induction d; [reflexivity | ..]; unfold hex_chars, str in *;
    cbn [NilEmpty.string_of_uint list_ascii_of_string map forallb];
    rewrite IHd; reflexivity.
Qed.

(** [int] accepts the [0x] prefix in base 16. *)
Lemma int_prefixed_hex (s : pystr) :
  s <> [] -> forallb (is_digit 16) s = true ->
  int (str "0x" ++ s) 16 = Ok (digits_value 16 s).
Proof.
  intros Hne Hs. unfold int.
  assert (Hsp : Forall (fun c => is_space c = false) (str "0x" ++ s)).
  { repeat constructor. apply List.Forall_forall. intros c Hc.
    apply (digit_not_space 16). rewrite forallb_forall in Hs. now apply Hs. }
  rewrite (strip_int_no_space _ Hsp).
  destruct s as [| c t]; [congruence |].
  pose proof Hs as Hs'. cbn [forallb] in Hs'.
  apply andb_true_iff in Hs' as [Hc _].
  destruct (digit_not_sign 16 c Hc) as (_ & _ & Hus).
  cbn. rewrite Hus.
  now rewrite (scan_digits_digits 16 (c :: t) Hs 0 false (or_introl Hne)).
Qed.

Lemma format_X_round_trip (n : Z) :
  0 <= n -> int (str "0x" ++ format_X n) 16 = Ok n.
Proof.
  intros Hn.
  assert (E : format_X n
              = map upper_char
                  (str (NilZero.string_of_uint (N.to_hex_uint (Z.to_N n))))).
  { destruct n; try reflexivity. lia. }
  rewrite E. set (d := N.to_hex_uint (Z.to_N n)).
  assert (Hd : d <> Hexadecimal.Nil).
  { unfold d. destruct (Z.to_N n);
      [discriminate | apply HexadecimalPos.Unsigned.to_uint_nonnil]. }
  assert (E' : NilZero.string_of_uint d = NilEmpty.string_of_uint d)
    by (destruct d; [congruence | reflexivity ..]).
  rewrite E'. fold (hex_chars d).
  rewrite int_prefixed_hex.
  - f_equal. unfold digits_value. rewrite <- hex_chars_value.
    unfold d. change (Pos.of_hex_uint ?x) with (N.of_hex_uint x).
    rewrite HexadecimalN.Unsigned.of_to. lia.
  - destruct d; [congruence | discriminate ..].
  - apply hex_chars_digits.
Qed.

(** X8. The [hex] rendering of a field reads back, in base 16, as the
    field's integer value. *)
Theorem field_hex_round_trip (b : pystr) (fmt : Format)
  (name : pystr) (start end_ : Z) :
  bitstring b -> NoDup (keys (fields fmt)) ->
  In (name, (start, end_)) (fields fmt) ->
  exists result entry n h,
    extract_fields b fmt = Ok result
    /\ dict_lookup result name = Some entry
    /\ dict_lookup entry (str "int") = Some (PyInt n)
    /\ dict_lookup entry (str "hex") = Some (PyStr h)
    /\ int h 16 = Ok n.
Proof.
  intros Hb Hnd Hin.
  eexists _, (field_value b start end_), _, _.
  split; [now apply extract_fields_bitstring |].
  split.
  { apply (dict_lookup_map fst
             (fun it => field_value b (fst (snd it)) (snd (snd it)))
             (fields fmt) (name, (start, end_))); assumption. }
  unfold field_value. repeat split; try reflexivity.
  apply format_X_round_trip.
  apply (bitstring_value_bounds _ (extract_bits_bitstring b start end_ Hb)).
Qed.

Lemma field_hex_round_trip_witness :
  let b := str "11000000001000000000000011" in
  let fmt := snd (App.normalize_entry H10301) in
  bitstring b /\ NoDup (keys (fields fmt))
  /\ In (str "Card", (9, 24)) (fields fmt)
  /\ exists result entry n h,
       extract_fields b fmt = Ok result
       /\ dict_lookup result (str "Card") = Some entry
       /\ dict_lookup entry (str "int") = Some (PyInt n)
       /\ dict_lookup entry (str "hex") = Some (PyStr h)
       /\ int h 16 = Ok n.
Proof.
  intros b fmt.
  assert (Hb : bitstring b) by (apply bitstring_digits; reflexivity).
  assert (Hnd : NoDup (keys (fields fmt)))
    by apply normalize_entry_fields_nodup.
  assert (Hin : In (str "Card", (9, 24)) (fields fmt))
    by (right; right; left; reflexivity).
  repeat (split; [assumption |]).
  exact (field_hex_round_trip b fmt _ 9 24 Hb Hnd Hin).
Defined.

(** ** More on the parity evaluator *)

Lemma count_char_app (c : ascii) (x y : pystr) :
  count_char c (x ++ y) = count_char c x + count_char c y.
Proof.
  induction x as [| a t IH]; cbn [count_char app]; [lia |]. rewrite IH. lia.
Qed.

(** X9. Flipping one bit of the covered data flips the expected parity
    bit, for even and for odd parity: a single-bit error is always
    visible in the expected value. *)
Theorem parity_detects_single_bit_flip (x y : pystr) :
  parity_even_bit_needed (x ++ "1"%char :: y)
  = 1 - parity_even_bit_needed (x ++ "0"%char :: y)
  /\ parity_odd_bit_needed (x ++ "1"%char :: y)
     = 1 - parity_odd_bit_needed (x ++ "0"%char :: y).
Proof.
  unfold parity_even_bit_needed, parity_odd_bit_needed.
  rewrite !count_char_app. cbn [count_char].
  change (Ascii.eqb "1" "1") with true. change (Ascii.eqb "0" "1") with false.
  cbv iota.
  replace (count_char "1" x + (1 + count_char "1" y))
    with (count_char "1" x + count_char "1" y + 1) by lia.
  replace (count_char "1" x + (0 + count_char "1" y))
    with (count_char "1" x + count_char "1" y) by lia.
  generalize (count_char "1" x + count_char "1" y). intros n.
  assert (Hn : n mod 2 = 0 \/ n mod 2 = 1)
    by (pose proof (Z.mod_pos_bound n 2); lia).
  assert (Hn1 : (n + 1) mod 2 = 1 - n mod 2).
  { rewrite Z.add_mod by lia. destruct Hn as [-> | ->]; reflexivity. }
  rewrite Hn1. destruct Hn as [-> | ->]; split; reflexivity.
Qed.

Lemma verify_parity_list (b : pystr) (L : Z) (flds : list (pystr * (Z * Z)))
  (rules : list ParityRule) :
  verify_parity b {| bit_length := L; fields := flds;
                     parity_coverage := Some (CovList rules) |}
  = flat_map (verify_rule b) rules.
Proof. unfold verify_parity. cbn [parity_coverage]. now destruct rules. Qed.

Lemma verify_range_coverage (b typ : pystr) (r : Z * Z) :
  dict_lookup (verify_range b typ r) (str "coverage")
  = Some (PyTuple2 (fst r) (snd r)).
Proof. now destruct r. Qed.

(** X10. A normalized format yields one ParityCheck entry per range
    declared in the document, in document order, whatever the rule
    types; rules without ranges contribute nothing. *)
Theorem one_check_per_declared_range (f : RawFormat) (b : pystr) :
  map (fun r => dict_lookup r (str "coverage"))
    (verify_parity b (snd (App.normalize_entry f)))
  = map (fun r => Some (PyTuple2 (fst r) (snd r)))
      (flat_map (fun p => get (p_ranges p) []) (get (f_parity f) [])).
Proof.
  unfold App.normalize_entry. cbn [snd]. rewrite verify_parity_list.
  induction (get (f_parity f) []) as [| p ps IH]; [reflexivity |].
  cbn [flat_map App.normalize_parity].
  fold (App.normalize_parity ps).
  rewrite flat_map_app, !map_app, IH. f_equal.
  destruct (get (p_ranges p) []) as [| r rs] eqn:E; [reflexivity |].
  cbn [flat_map]. rewrite app_nil_r. unfold verify_rule.
  cbn [rule_ranges rule_type get]. rewrite map_map.
  apply map_ext. intros r'. apply verify_range_coverage.
Qed.

(** ** The catalogue *)

Section DictLookup.

Context {K V : Type} `{EqDecision K}.

Lemma dict_lookup_set (d : list (K * V)) (k k' : K) (v : V) :
  dict_lookup (dict_set d k v) k'
  = if decide (k' = k) then Some v else dict_lookup d k'.
Proof.
  induction d as [| [k0 v0] t IH]; cbn [dict_set dict_lookup].
  - reflexivity.
  - destruct (decide (k = k0)) as [-> | Hne]; cbn [dict_lookup].
    + now destruct (decide (k' = k0)).
    + rewrite IH. destruct (decide (k' = k0)) as [-> | _]; [| reflexivity].
      destruct (decide (k0 = k)) as [E | _]; [| reflexivity].
      now symmetry in E.
Qed.

(** Filling a dictionary item by item: the last item with a key wins. *)
Lemma dict_fold_lookup {A} (key : A -> K) (val : A -> V) (items : list A)
  (acc : list (K * V)) (k : K) :
  dict_lookup (fold_left (fun d it => dict_set d (key it) (val it)) items acc) k
  = match last_with (fun it => bool_decide (key it = k)) items with
    | Some it => Some (val it)
    | None => dict_lookup acc k
    end.
Proof.
  revert acc. induction items as [| x t IH]; intros acc;
    cbn [fold_left last_with]; [reflexivity |].
  rewrite IH. destruct (last_with _ t); [reflexivity |].
  rewrite dict_lookup_set. case_bool_decide as E.
  - subst k. now destruct (decide (key x = key x)).
  - destruct (decide (k = key x)) as [-> | _]; [congruence | reflexivity].
Qed.

End DictLookup.

Lemma normalize_formats_fold (doc : RawDoc) :
  App._normalize_formats doc
  = fold_left
      (fun out f =>
         dict_set out (fst (App.normalize_entry f)) (snd (App.normalize_entry f)))
      (get (doc_formats doc) []) [].
Proof. reflexivity. Qed.

(** X11. The catalogue has pairwise distinct names, and under each name
    it holds the normalization of the last format of the document with
    that name (a missing name counts as ["Format"]). *)
Theorem catalogue_last_format_wins (doc : RawDoc) :
  NoDup (keys (App._normalize_formats doc))
  /\ forall name,
       dict_lookup (App._normalize_formats doc) name
       = option_map (fun f => snd (App.normalize_entry f))
           (last_with
              (fun f => str_eqb (get (f_name f) (str "Format")) name)
              (get (doc_formats doc) [])).
Proof.
  rewrite normalize_formats_fold. split.
  - apply (dict_fold_nodup (fun f => fst (App.normalize_entry f))
             (fun f => snd (App.normalize_entry f))).
    apply NoDup_nil_2.
  - intros name.
    rewrite (dict_fold_lookup (fun f => fst (App.normalize_entry f))
               (fun f => snd (App.normalize_entry f))).
    unfold str_eqb. cbn [App.normalize_entry fst].
    now destruct (last_with _ _).
Qed.

(** ** The earlier version: parity checks with a verdict *)

Lemma single_bit_value (s : pystr) :
  bitstring s -> len s = 1 -> digits_value 2 s = count_char "1" s.
Proof.
  intros Hs Hl. unfold len in Hl.
  destruct s as [| c [| ? ?]]; cbn [length] in Hl; try lia.
  inversion Hs as [| ? ? [-> | ->] _]; reflexivity.
Qed.

Lemma legacy_bit (b : pystr) (p : Z) :
  bitstring b -> 0 <= p < len b ->
  let bit := Legacy.extract_bits b p (p + 1) in
  Legacy.bits_to_int bit = Ok (count_char "1" bit)
  /\ (count_char "1" bit = 0 \/ count_char "1" bit = 1).
Proof.
  intros Hb Hp bit.
  assert (Hbit : bitstring bit) by (now apply slice_Forall).
  assert (Hlen : len bit = 1).
  { subst bit. unfold Legacy.extract_bits.
    destruct (slice_inside b p (p + 1) ltac:(lia) ltac:(lia)) as [_ ->]. lia. }
  change (Legacy.bits_to_int bit) with (bits_to_int bit).
  rewrite (bits_to_int_bitstring bit Hbit), (single_bit_value bit Hbit Hlen).
  split; [reflexivity |]. unfold len in Hlen.
  destruct bit as [| c [| ? ?]]; cbn [length] in Hlen; try lia.
  inversion Hbit as [| ? ? [-> | ->] _]; [left | right]; reflexivity.
Qed.

Lemma parity_even_verdict (ones bit : Z) :
  bit = 0 \/ bit = 1 ->
  ((if ones mod 2 =? 0 then 0 else 1) =? bit) = Z.even (bit + ones).
Proof.
  intros Hbit. rewrite Z.even_add, <- (Zeven_mod ones).
  destruct Hbit as [-> | ->]; destruct (Z.even ones); reflexivity.
Qed.

Lemma parity_odd_verdict (ones bit : Z) :
  bit = 0 \/ bit = 1 ->
  ((if ones mod 2 =? 0 then 1 else 0) =? bit) = Z.odd (bit + ones).
Proof.
  intros Hbit. rewrite Z.odd_add, <- (Zeven_mod ones), <- !Z.negb_even.
  destruct Hbit as [-> | ->]; destruct (Z.even ones); reflexivity.
Qed.

Lemma legacy_two_checks (e1 e2 : list (pystr * pyval)) :
  dict_set (dict_set [] (str "Even Parity") e1) (str "Odd Parity") e2
  = [(str "Even Parity", e1); (str "Odd Parity", e2)].
Proof. reflexivity. Qed.

Lemma legacy_entry_ok (expected p_bit : Z) (data_bits : pystr) :
  truthy (dict_get (Legacy.check_entry expected p_bit data_bits) (str "ok")
            (PyBool true))
  = (expected =? p_bit).
Proof. reflexivity. Qed.

(** X12. In the earlier version, a format with one-bit fields
    ["Even Parity"] and ["Odd Parity"] and a coverage for both passes
    [parity_all_ok] exactly when the even parity bit together with its
    covered bits has an even number of ones and the odd parity bit
    together with its covered bits has an odd number of ones. *)
Theorem legacy_parity_all_ok_meaning (b : pystr) (fmt : Format)
  (d : list (pystr * (Z * Z))) (pe po : Z) (ce co : Z * Z) :
  bitstring b ->
  parity_coverage fmt = Some (CovDict d) ->
  dict_lookup d (str "even") = Some ce ->
  dict_lookup d (str "odd") = Some co ->
  dict_lookup (fields fmt) (str "Even Parity") = Some (pe, pe + 1) ->
  dict_lookup (fields fmt) (str "Odd Parity") = Some (po, po + 1) ->
  0 <= pe < len b -> 0 <= po < len b ->
  Legacy.parity_all_ok b fmt
  = Ok (Z.even (count_char "1" (Legacy.extract_bits b pe (pe + 1))
                + count_char "1" (Legacy.extract_bits b (fst ce) (snd ce)))
        && Z.odd (count_char "1" (Legacy.extract_bits b po (po + 1))
                  + count_char "1" (Legacy.extract_bits b (fst co) (snd co)))).
Proof.
  intros Hb Hcov He Ho Hfe Hfo Hpe Hpo.
  destruct (legacy_bit b pe Hb Hpe) as [Ee Be].
  destruct (legacy_bit b po Hb Hpo) as [Eo Bo].
  unfold Legacy.parity_all_ok, Legacy.verify_parity. rewrite Hcov.
  destruct d as [| d0 d']; [discriminate He |].
  unfold Legacy.check, Legacy.coverage_lookup.
  rewrite Hfe, He. destruct ce as [cs1 ce1], co as [cs2 ce2].
  rewrite Ee. cbn [bind]. rewrite Hfo, Ho, Eo. cbn [bind fst snd].
  rewrite legacy_two_checks. cbn [map snd forallb].
  rewrite !legacy_entry_ok, andb_true_r.
  unfold Legacy.parity_even, Legacy.parity_odd.
  now rewrite (parity_even_verdict _ _ Be), (parity_odd_verdict _ _ Bo).
Qed.


Lemma legacy_parity_all_ok_meaning_witness :
  let b := str "01000000001000000000000010" in
  bitstring b
  /\ Legacy.parity_all_ok b Legacy.H10301
     = Ok (Z.even (count_char "1" (Legacy.extract_bits b 0 (0 + 1))
                   + count_char "1" (Legacy.extract_bits b 1 13))
           && Z.odd (count_char "1" (Legacy.extract_bits b 25 (25 + 1))
                     + count_char "1" (Legacy.extract_bits b 13 25))).
Proof.
  intros b.
  assert (Hb : bitstring b) by (apply bitstring_digits; vm_compute; reflexivity).
  pose (d := [ (str "even", (1, 13)); (str "odd", (13, 25)) ]).
  assert (H1 : parity_coverage Legacy.H10301 = Some (CovDict d)) by reflexivity.
  assert (H2 : dict_lookup d (str "even") = Some (1, 13))
    by (vm_compute; reflexivity).
  assert (H3 : dict_lookup d (str "odd") = Some (13, 25))
    by (vm_compute; reflexivity).
  assert (H4 : dict_lookup (fields Legacy.H10301) (str "Even Parity")
               = Some (0, 0 + 1)) by (vm_compute; reflexivity).
  assert (H5 : dict_lookup (fields Legacy.H10301) (str "Odd Parity")
               = Some (25, 25 + 1)) by (vm_compute; reflexivity).
  assert (H6 : 0 <= 0 < len b) by (vm_compute; split; [discriminate | reflexivity]).
  assert (H7 : 0 <= 25 < len b) by (vm_compute; split; [discriminate | reflexivity]).
  split; [exact Hb |].
  exact (legacy_parity_all_ok_meaning b Legacy.H10301 d 0 25 (1, 13) (13, 25)
           Hb H1 H2 H3 H4 H5 H6 H7).
Defined.

(** ** Merging format documents *)

Section LastWith.

Context {A : Type}.

Lemma last_with_app (P : A -> bool) (l1 l2 : list A) :
  last_with P (l1 ++ l2)
  = match last_with P l2 with
    | Some y => Some y
    | None => last_with P l1
    end.
Proof.
  induction l1 as [| x t IH]; cbn [app last_with].
  - now destruct (last_with P l2).
  - rewrite IH. now destruct (last_with P l2).
Qed.

Lemma last_with_Some (P : A -> bool) (l : list A) (x : A) :
  last_with P l = Some x -> In x l /\ P x = true.
Proof.
  induction l as [| a t IH]; cbn [last_with]; [discriminate |].
  destruct (last_with P t) as [y |].
  - intros [= ->]. destruct (IH eq_refl). split; [now right | assumption].
  - destruct (P a) eqn:Ea; [| discriminate]. intros [= ->].
    split; [now left | assumption].
Qed.

Lemma last_with_None (P : A -> bool) (l : list A) :
  last_with P l = None <-> forall x, In x l -> P x = false.
Proof.
  induction l as [| a t IH]; cbn [last_with]; [easy |]. split.
  - destruct (last_with P t); [discriminate |].
    destruct (P a) eqn:Ea; [discriminate |]. intros _ x [<- | Hx];
      [assumption | now apply IH].
  - intros H. rewrite (proj2 IH) by (intros x Hx; apply H; now right).
    now rewrite (H a (or_introl eq_refl)).
Qed.

Lemma last_with_pointwise (P Q : A -> bool) (l : list A) :
  (forall x, In x l -> P x = Q x) -> last_with P l = last_with Q l.
Proof.
  induction l as [| a t IH]; intros E; [reflexivity |]. cbn [last_with].
  rewrite IH by (intros x Hx; apply E; now right).
  now rewrite (E a (or_introl eq_refl)).
Qed.

Lemma last_with_map (P : A -> bool) (h : A -> A) (l : list A) :
  (forall x, In x l -> P (h x) = P x) ->
  last_with P (map h l) = option_map h (last_with P l).
Proof.
  induction l as [| a t IH]; intros E; [reflexivity |]. cbn [map last_with].
  rewrite IH by (intros x Hx; apply E; now right).
  destruct (last_with P t); [reflexivity |].
  rewrite (E a (or_introl eq_refl)). now destruct (P a).
Qed.

Lemma last_with_filter (P Q : A -> bool) (l : list A) :
  (forall x, In x l -> P x = true -> Q x = true) ->
  last_with P (List.filter Q l) = last_with P l.
Proof.
  induction l as [| a t IH]; intros E; [reflexivity |].
  cbn [List.filter last_with].
  specialize (IH (fun x Hx => E x (or_intror Hx))).
  destruct (Q a) eqn:Ea; cbn [last_with]; rewrite IH; [reflexivity |].
  destruct (last_with P t); [reflexivity |].
  destruct (P a) eqn:Pa; [| reflexivity].
  rewrite (E a (or_introl eq_refl) Pa) in Ea. discriminate.
Qed.

End LastWith.

Section IndexNames.

Context {K : Type} `{EqDecision K}.
Variable key : RawFormat -> K.

Lemma index_names_Some (t : list RawFormat) :
  forall i0 acc k i,
    dict_lookup (index_names key t i0 acc) k = Some i ->
    (exists g, t !! (i - i0)%nat = Some g /\ key g = k /\ (i0 <= i)%nat)
    \/ dict_lookup acc k = Some i.
Proof.
  induction t as [| f t IH]; intros i0 acc k i; cbn [index_names];
    [now right |].
  intros H. apply IH in H as [(g & Hg & Hk & Hi) | H].
  - left. exists g. repeat split; [| assumption | lia].
    replace (i - i0)%nat with (S (i - S i0)) by lia. exact Hg.
  - rewrite dict_lookup_set in H. destruct (decide (k = key f)) as [-> | _];
      [| now right].
    injection H as <-. left. exists f.
    rewrite Nat.sub_diag. repeat split. lia.
Qed.

Lemma index_names_None (t : list RawFormat) :
  forall i0 acc k,
    dict_lookup (index_names key t i0 acc) k = None ->
    (forall g, In g t -> key g <> k) /\ dict_lookup acc k = None.
Proof.
  induction t as [| f t IH]; intros i0 acc k; cbn [index_names];
    [now split |].
  intros H. apply IH in H as [Ht H].
  rewrite dict_lookup_set in H. destruct (decide (k = key f)) as [-> | Hne];
    [discriminate |].
  split; [| assumption]. intros g [<- | Hg]; [congruence | now apply Ht].
Qed.

End IndexNames.

Lemma has_name_true (k : option pystr) (l : list RawFormat) :
  has_name k l = true <-> exists g, In g l /\ f_name g = k.
Proof.
  unfold has_name. rewrite existsb_exists. split; intros (g & Hg & E);
    exists g; (split; [assumption |]).
  - now apply bool_decide_eq_true in E.
  - now apply bool_decide_eq_true.
Qed.

Lemma replacement_name (incoming : list RawFormat) (g : RawFormat) :
  f_name (replacement incoming g) = f_name g.
Proof.
  unfold replacement.
  destruct (last_with _ incoming) as [f |] eqn:E; [| reflexivity].
  apply last_with_Some in E as [_ E]. now apply bool_decide_eq_true in E.
Qed.

Lemma replacement_snoc_other (incoming : list RawFormat) (f g : RawFormat) :
  f_name f <> f_name g ->
  replacement (incoming ++ [f]) g = replacement incoming g.
Proof.
  intros Hne. unfold replacement. rewrite last_with_app. cbn [last_with].
  now rewrite bool_decide_eq_false_2.
Qed.

Lemma replacement_snoc_same (incoming : list RawFormat) (f g : RawFormat) :
  f_name f = f_name g -> replacement (incoming ++ [f]) g = f.
Proof.
  intros E. unfold replacement. rewrite last_with_app. cbn [last_with].
  now rewrite bool_decide_eq_true_2.
Qed.

(** The loop of [merge_formats] on a base with distinct names. *)
Lemma merge_loop_spec (B incoming : list RawFormat) :
  NoDup (map f_name B) ->
  fold_left (merge_step (index_names f_name B 0%nat [])) incoming B
  = map (replacement incoming) B
    ++ List.filter (fun f => negb (has_name (f_name f) B)) incoming.
Proof.
  intros Hnd. induction incoming as [| f inc IH] using rev_ind.
  - cbn [fold_left List.filter]. rewrite app_nil_r.
    rewrite <- (map_id B) at 1. apply map_ext_in. intros g _. reflexivity.
  - rewrite fold_left_app. cbn [fold_left]. rewrite IH.
    rewrite List.filter_app. cbn [List.filter]. unfold merge_step.
    destruct (dict_lookup (index_names f_name B 0%nat []) (f_name f))
      as [i |] eqn:El.
    + apply index_names_Some in El as [(g & Hg & Hk & _) | El];
        [| discriminate El].
      rewrite Nat.sub_0_r in Hg.
      assert (Hhas : has_name (f_name f) B = true).
      { apply has_name_true. exists g. split; [| assumption].
        apply list_elem_of_In. now apply list_elem_of_lookup_2 in Hg. }
      rewrite Hhas. cbn [negb]. rewrite app_nil_r.
      pose proof (take_drop_middle B i g Hg) as HB.
      assert (Hi : (i < length B)%nat) by (now apply lookup_lt_Some in Hg).
      rewrite insert_app_l by (now rewrite length_map). f_equal.
      rewrite insert_take_drop by (now rewrite length_map).
      rewrite <- HB at 3. rewrite map_app. cbn [map].
      rewrite <- HB in Hnd. rewrite map_app in Hnd. cbn [map] in Hnd.
      assert (Hout : ~ In (f_name g)
                         (map f_name (take i B) ++ map f_name (drop (S i) B))).
      { apply NoDup_app in Hnd as (_ & Hl & Hr).
        apply NoDup_cons in Hr as [Hr _]. intros Hin.
        apply in_app_iff in Hin as [Hin | Hin].
        - apply list_elem_of_In in Hin. apply (Hl _ Hin). now left.
        - apply Hr. now apply list_elem_of_In. }
      clear Hnd. rename Hout into Hnd.
      rewrite firstn_map, skipn_map.
      rewrite (replacement_snoc_same inc f g (eq_sym Hk)).
      f_equal; [| f_equal]; apply map_ext_in; intros x Hx; symmetry;
        apply replacement_snoc_other; rewrite <- Hk; intros E; apply Hnd;
        rewrite E; apply in_or_app; [left | right]; now apply in_map.
    + apply index_names_None in El as [Hfresh _].
      assert (Hhas : has_name (f_name f) B = false).
      { destruct (has_name (f_name f) B) eqn:E; [| reflexivity].
        apply has_name_true in E as (g & Hg & E). now apply Hfresh in Hg. }
      rewrite Hhas. cbn [negb]. rewrite app_assoc. f_equal. f_equal.
      apply map_ext_in. intros g Hg. symmetry.
      apply replacement_snoc_other. intros E. now apply (Hfresh g Hg).
Qed.

Lemma merge_formats_spec (B incoming : list RawFormat) :
  NoDup (map f_name B) ->
  merge_formats {| doc_formats := Some B |} {| doc_formats := Some incoming |}
  = Some {| doc_formats :=
              Some (map (replacement incoming) B
                    ++ List.filter (fun f => negb (has_name (f_name f) B))
                         incoming) |}.
Proof.
  intros Hnd. unfold merge_formats. cbn [doc_formats get].
  destruct incoming as [| f rest].
  - cbn [List.filter]. rewrite app_nil_r. do 3 f_equal.
    rewrite <- (map_id B) at 1. apply map_ext_in. now intros g _.
  - now rewrite (merge_loop_spec B (f :: rest) Hnd).
Qed.

(** X13. Merging into a base whose names are pairwise distinct: every
    base format is replaced, in place, by the last incoming format of
    the same name (or kept), and the incoming formats whose name is not
    in the base are appended in order, duplicates included. The names of
    the base keep their positions. *)
Theorem merge_formats_replaces_and_appends (B incoming : list RawFormat) :
  NoDup (map f_name B) ->
  exists merged,
    merge_formats {| doc_formats := Some B |}
      {| doc_formats := Some incoming |}
    = Some {| doc_formats := Some merged |}
    /\ merged = map (replacement incoming) B
                ++ List.filter (fun f => negb (has_name (f_name f) B)) incoming
    /\ map f_name (take (length B) merged) = map f_name B.
Proof.
  intros Hnd. eexists. split; [now apply merge_formats_spec |].
  split; [reflexivity |].
  rewrite take_app_length' by (now rewrite length_map).
  rewrite map_map. apply map_ext. intros g. apply replacement_name.
Qed.

Lemma merge_formats_replaces_and_appends_witness :
  let B := [H10301; CSN32] in
  let incoming := [CSN32; Raw8; CSN32_wider; Raw8] in
  NoDup (map f_name B)
  /\ exists merged,
       merge_formats {| doc_formats := Some B |}
         {| doc_formats := Some incoming |}
       = Some {| doc_formats := Some merged |}
       /\ merged = map (replacement incoming) B
                   ++ List.filter (fun f => negb (has_name (f_name f) B))
                        incoming
       /\ map f_name (take (length B) merged) = map f_name B.
Proof.
  intros B incoming.
  assert (Hnd : NoDup (map f_name B)).
  { apply NoDup_cons_2; [| apply NoDup_cons_2;
                             [apply not_elem_of_nil | apply NoDup_nil_2]].
    intros Hin. apply list_elem_of_singleton in Hin. discriminate Hin. }
  split; [exact Hnd |].
  exact (merge_formats_replaces_and_appends B incoming Hnd).
Defined.

(** An import that updates one format and brings a new one twice. *)
Example merge_formats_sample :
  merge_formats {| doc_formats := Some [H10301; CSN32] |}
    {| doc_formats := Some [CSN32; Raw8; CSN32_wider; Raw8] |}
  = Some {| doc_formats := Some [H10301; CSN32_wider; Raw8; Raw8] |}.
Proof. vm_compute. reflexivity. Qed.

(** *** The two versions of [merge_formats] *)

Lemma dict_set_lift (d : list (pystr * nat)) (k : pystr) (i : nat) :
  dict_set (lift_names d) (Some k) i = lift_names (dict_set d k i).
Proof.
  unfold lift_names.
  induction d as [| [k' i'] t IH]; cbn [map dict_set]; [reflexivity |].
  destruct (decide (k = k')) as [-> | Hne].
  - now destruct (decide (Some k' = Some k')).
  - destruct (decide (Some k = Some k')) as [[= E] | _]; [contradiction |].
    cbn [map]. now rewrite IH.
Qed.

Lemma dict_lookup_lift (d : list (pystr * nat)) (k : pystr) :
  dict_lookup (lift_names d) (Some k) = dict_lookup d k.
Proof.
  unfold lift_names.
  induction d as [| [k' i'] t IH]; cbn [map dict_lookup]; [reflexivity |].
  destruct (decide (k = k')) as [-> | Hne].
  - now destruct (decide (Some k' = Some k')).
  - now destruct (decide (Some k = Some k')) as [[= E] | _].
Qed.

Lemma io_index_names (t : list RawFormat) :
  all_named t ->
  forall i acc,
  exists names,
    FormatsIO.index_names t i acc = Some names
    /\ index_names f_name t i (lift_names acc) = lift_names names.
Proof.
  induction 1 as [| f t Hf _ IH]; intros i acc; cbn [FormatsIO.index_names
                                                       index_names].
  - now exists acc.
  - destruct (f_name f) as [nm |]; [| contradiction].
    rewrite dict_set_lift. apply IH.
Qed.

Lemma io_merge_loop (names : list (pystr * nat)) (incoming : list RawFormat) :
  all_named incoming ->
  forall formats,
    FormatsIO.merge_loop names formats incoming
    = (fold_left (merge_step (lift_names names)) incoming formats, true).
Proof.
  induction 1 as [| f t Hf _ IH]; intros formats;
    cbn [FormatsIO.merge_loop fold_left]; [reflexivity |].
  unfold merge_step at 2.
  destruct (f_name f) as [nm |]; [| contradiction].
  rewrite dict_lookup_lift. destruct (dict_lookup names nm); apply IH.
Qed.

Lemma io_merge_loop_fails (names : list (pystr * nat))
  (pre post : list RawFormat) (f : RawFormat) :
  all_named pre -> f_name f = None ->
  forall formats,
    FormatsIO.merge_loop names formats (pre ++ f :: post)
    = (fst (FormatsIO.merge_loop names formats pre), false).
Proof.
  intros Hpre Hf. induction Hpre as [| g t Hg _ IH]; intros formats;
    cbn [app FormatsIO.merge_loop].
  - now rewrite Hf.
  - destruct (f_name g) as [nm |]; [| contradiction].
    destruct (dict_lookup names nm); apply IH.
Qed.

(** X14. When every format of the base and of the incoming document has
    a name, [merge_formats] of [Modules/formats_io.py] does exactly what
    the fallback [merge_formats] does: the same document, or a
    [KeyError] in the same cases, with the base unchanged. *)
Theorem formats_io_merge_agrees (base incoming : RawDoc) :
  all_named (get (doc_formats base) []) ->
  all_named (get (doc_formats incoming) []) ->
  FormatsIO.merge_formats base incoming
  = match merge_formats base incoming with
    | Some doc => (doc, true)
    | None => (base, false)
    end.
Proof.
  intros Hb Hi. unfold FormatsIO.merge_formats, merge_formats.
  destruct (io_index_names _ Hb 0%nat []) as (names & -> & En).
  change (lift_names []) with (@nil (option pystr * nat)) in En. rewrite En.
  destruct (get (doc_formats incoming) []) as [| f rest]; [reflexivity |].
  destruct (doc_formats base) as [formats |]; [| reflexivity].
  now rewrite (io_merge_loop names (f :: rest) Hi).
Qed.

Lemma formats_io_merge_agrees_witness :
  let base := {| doc_formats := Some [H10301; CSN32] |} in
  let incoming := {| doc_formats := Some [CSN32_wider; Raw8] |} in
  all_named (get (doc_formats base) [])
  /\ all_named (get (doc_formats incoming) [])
  /\ FormatsIO.merge_formats base incoming
     = match merge_formats base incoming with
       | Some doc => (doc, true)
       | None => (base, false)
       end.
Proof.
  intros base incoming.
  assert (Hb : all_named (get (doc_formats base) []))
    by (repeat constructor; discriminate).
  assert (Hi : all_named (get (doc_formats incoming) []))
    by (repeat constructor; discriminate).
  split; [exact Hb |]. split; [exact Hi |].
  exact (formats_io_merge_agrees base incoming Hb Hi).
Defined.

(** X15. In [Modules/formats_io.py], an incoming format without a name
    stops the merge with a [KeyError], and the base document keeps the
    changes made for the formats before it: it is left as a merge of
    those alone would leave it. *)
Theorem formats_io_merge_fails_midway (B pre post : list RawFormat)
  (f : RawFormat) :
  all_named B -> all_named pre -> f_name f = None ->
  FormatsIO.merge_formats {| doc_formats := Some B |}
    {| doc_formats := Some (pre ++ f :: post) |}
  = (fst (FormatsIO.merge_formats {| doc_formats := Some B |}
            {| doc_formats := Some pre |}),
     false).
Proof.
  intros HB Hpre Hf. unfold FormatsIO.merge_formats. cbn [doc_formats get].
  destruct (io_index_names B HB 0%nat []) as (names & -> & _).
  pose proof (io_merge_loop_fails names pre post f Hpre Hf B) as Hloop.
  destruct (pre ++ f :: post) as [| x rest] eqn:E;
    [now destruct pre |].
  rewrite Hloop. destruct pre as [| g pre']; [reflexivity |].
  now destruct (FormatsIO.merge_loop names B (g :: pre')).
Qed.

Lemma formats_io_merge_fails_midway_witness :
  all_named [H10301; CSN32] /\ all_named [CSN32_wider] /\ f_name Unnamed8 = None
  /\ FormatsIO.merge_formats {| doc_formats := Some [H10301; CSN32] |}
       {| doc_formats := Some ([CSN32_wider] ++ Unnamed8 :: [Raw8]) |}
     = (fst (FormatsIO.merge_formats {| doc_formats := Some [H10301; CSN32] |}
               {| doc_formats := Some [CSN32_wider] |}),
        false).
Proof.
  assert (HB : all_named [H10301; CSN32]) by (repeat constructor; discriminate).
  assert (Hp : all_named [CSN32_wider]) by (repeat constructor; discriminate).
  split; [exact HB |]. split; [exact Hp |]. split; [reflexivity |].
  exact (formats_io_merge_fails_midway [H10301; CSN32] [CSN32_wider] [Raw8]
           Unnamed8 HB Hp eq_refl).
Defined.

(** ** The catalogue after an import, a deletion, a copy *)

Lemma normalize_formats_lookup (formats : list RawFormat) (name : pystr) :
  dict_lookup (App._normalize_formats {| doc_formats := Some formats |}) name
  = option_map (fun f => snd (App.normalize_entry f))
      (last_with (fun f => str_eqb (get (f_name f) (str "Format")) name)
         formats).
Proof.
  rewrite normalize_formats_fold. cbn [doc_formats get].
  rewrite (dict_fold_lookup (fun f => fst (App.normalize_entry f))
             (fun f => snd (App.normalize_entry f))).
  unfold str_eqb. cbn [App.normalize_entry fst]. now destruct (last_with _ _).
Qed.

Lemma named_lookup (l : list RawFormat) (name : pystr) :
  all_named l ->
  last_with (fun f => str_eqb (get (f_name f) (str "Format")) name) l
  = last_with (fun f => bool_decide (f_name f = Some name)) l.
Proof.
  intros Hl. apply last_with_pointwise. intros f Hf.
  apply (proj1 (List.Forall_forall _ _) Hl) in Hf.
  destruct (f_name f) as [nm |] eqn:E; [| contradiction]. cbn [get].
  unfold str_eqb.
  destruct (decide (nm = name)) as [-> | Hne].
  - now rewrite !bool_decide_eq_true_2.
  - rewrite !bool_decide_eq_false_2; [reflexivity | | assumption].
    now intros [= ?].
Qed.

Lemma replacement_named (incoming : list RawFormat) (g : RawFormat) :
  f_name (replacement incoming g) <> None <-> f_name g <> None.
Proof. now rewrite replacement_name. Qed.

(** X16. After an import into a document whose formats have pairwise
    distinct names (all formats named), the catalogue holds, under every
    name an incoming format bears, the normalization of the last such
    incoming format; every other name is as in the catalogue of the
    document before. *)
Theorem import_last_incoming_wins (st : Manage.State)
  (B incoming : list RawFormat) (name : pystr) :
  Manage.formats_doc st = {| doc_formats := Some B |} ->
  NoDup (map f_name B) -> all_named B -> all_named incoming ->
  dict_lookup
    (Manage.FORMATS (Manage.menu_import st {| doc_formats := Some incoming |}))
    name
  = match last_with (fun f => bool_decide (f_name f = Some name)) incoming with
    | Some f => Some (snd (App.normalize_entry f))
    | None =>
        dict_lookup (App._normalize_formats (Manage.formats_doc st)) name
    end.
Proof.
  intros Hst Hnd HB Hinc. unfold Manage.menu_import.
  rewrite Hst, (merge_formats_spec B incoming Hnd). cbn [Manage.FORMATS].
  set (Q := fun f : RawFormat => bool_decide (f_name f = Some name)).
  set (fresh := fun f : RawFormat => negb (has_name (f_name f) B)).
  assert (Hmerged : all_named (map (replacement incoming) B
                               ++ List.filter fresh incoming)).
  { apply Forall_app. split.
    - apply List.Forall_forall. intros x Hx.
      apply in_map_iff in Hx as (g & <- & Hg). apply replacement_named.
      now apply (proj1 (List.Forall_forall _ _) HB).
    - apply List.Forall_forall. intros x Hx. apply filter_In in Hx as [Hx _].
      now apply (proj1 (List.Forall_forall _ _) Hinc). }
  rewrite !normalize_formats_lookup.
  rewrite (named_lookup _ name Hmerged), (named_lookup _ name HB).
  fold Q. rewrite last_with_app.
  assert (Hmap : last_with Q (map (replacement incoming) B)
                 = option_map (replacement incoming) (last_with Q B)).
  { apply last_with_map. intros x _. unfold Q.
    now rewrite replacement_name. }
  rewrite Hmap.
  destruct (has_name (Some name) B) eqn:Hhas.
  - assert (Hnone : last_with Q (List.filter fresh incoming) = None).
    { apply last_with_None. intros x Hx. apply filter_In in Hx as [_ Hx].
      destruct (Q x) eqn:Qx; [| reflexivity].
      apply bool_decide_eq_true in Qx. unfold fresh in Hx.
      rewrite Qx, Hhas in Hx. discriminate. }
    rewrite Hnone.
    destruct (last_with Q B) as [g |] eqn:Eg.
    + apply last_with_Some in Eg as [_ Eg].
      apply bool_decide_eq_true in Eg. cbn [option_map].
      unfold replacement. rewrite Eg. fold Q.
      now destruct (last_with Q incoming).
    + exfalso. apply has_name_true in Hhas as (g & Hg & Hn).
      pose proof (proj1 (last_with_None Q B) Eg g Hg) as Hq.
      apply bool_decide_eq_false in Hq. contradiction.
  - assert (Hall : last_with Q (List.filter fresh incoming)
                   = last_with Q incoming).
    { apply last_with_filter. intros x _ Qx.
      apply bool_decide_eq_true in Qx. unfold fresh. now rewrite Qx, Hhas. }
    rewrite Hall. destruct (last_with Q incoming); [reflexivity |].
    assert (HnB : last_with Q B = None).
    { apply last_with_None. intros g Hg. apply bool_decide_eq_false.
      intros Hn. assert (has_name (Some name) B = true)
        by (apply has_name_true; eauto). congruence. }
    now rewrite HnB.
Qed.

Lemma import_last_incoming_wins_witness :
  let B := [H10301; CSN32] in
  let st :=
    {| Manage.formats_doc := {| doc_formats := Some B |};
       Manage.FORMATS := App._normalize_formats {| doc_formats := Some B |} |} in
  let incoming := [CSN32_wider; Raw8] in
  let name := str "CSN - 32-bit (4-byte)" in
  Manage.formats_doc st = {| doc_formats := Some B |}
  /\ NoDup (map f_name B) /\ all_named B /\ all_named incoming
  /\ dict_lookup
       (Manage.FORMATS
          (Manage.menu_import st {| doc_formats := Some incoming |}))
       name
     = match
         last_with (fun f => bool_decide (f_name f = Some name)) incoming
       with
       | Some f => Some (snd (App.normalize_entry f))
       | None =>
           dict_lookup (App._normalize_formats (Manage.formats_doc st)) name
       end.
Proof.
  intros B st incoming name.
  assert (Hnd : NoDup (map f_name B)).
  { apply NoDup_cons_2; [| apply NoDup_cons_2;
                             [apply not_elem_of_nil | apply NoDup_nil_2]].
    intros Hin. apply list_elem_of_singleton in Hin. discriminate Hin. }
  assert (HB : all_named B)
    by (repeat constructor; intros E; vm_compute in E; discriminate E).
  assert (Hi : all_named incoming)
    by (repeat constructor; intros E; vm_compute in E; discriminate E).
  split; [reflexivity |]. split; [exact Hnd |]. split; [exact HB |].
  split; [exact Hi |].
  exact (import_last_incoming_wins st B incoming name eq_refl Hnd HB Hi).
Defined.

Lemma last_with_filter_and {A} (P Q : A -> bool) (l : list A) :
  last_with P (List.filter Q l) = last_with (fun x => Q x && P x) l.
Proof.
  induction l as [| a t IH]; [reflexivity |]. cbn [List.filter last_with].
  destruct (Q a); cbn [last_with andb]; rewrite IH;
    now destruct (last_with _ t).
Qed.

(** X17. Deleting the format named [name] leaves every other name of
    the catalogue as it was. The name itself is gone from the catalogue,
    unless it is ["Format"]: a format without a name is not deleted,
    and it is listed under ["Format"]. *)
Theorem delete_removes_only_that_name (formats : list RawFormat)
  (name : pystr) :
  let after := Manage._delete_selected_format formats name in
  let catalogue l := App._normalize_formats {| doc_formats := Some l |} in
  (forall other, other <> name ->
     dict_lookup (catalogue after) other = dict_lookup (catalogue formats) other)
  /\ (name <> str "Format" -> dict_lookup (catalogue after) name = None)
  /\ (name = str "Format" ->
      dict_lookup (catalogue after) name
      = option_map (fun f => snd (App.normalize_entry f))
          (last_with (fun f => bool_decide (f_name f = None)) formats)).
Proof.
  intros after catalogue. subst after catalogue. cbv beta.
  unfold Manage._delete_selected_format.
  split; [| split].
  - intros other Hne. rewrite !normalize_formats_lookup, last_with_filter_and.
    f_equal. apply last_with_pointwise. intros f _. unfold str_eqb.
    destruct (f_name f) as [nm |]; cbn [get]; [| reflexivity].
    case_bool_decide as E1; [| reflexivity]. injection E1 as ->.
    cbn [negb andb]. now rewrite bool_decide_eq_false_2.
  - intros Hne. rewrite normalize_formats_lookup, last_with_filter_and.
    replace (last_with _ formats) with (@None RawFormat); [reflexivity |].
    symmetry. apply last_with_None. intros f _. unfold str_eqb.
    destruct (f_name f) as [nm |]; cbn [get].
    + case_bool_decide as E1; [injection E1 as -> |]; cbn [negb andb];
        [reflexivity |].
      apply bool_decide_eq_false_2. congruence.
    + rewrite (bool_decide_eq_false_2 (None = Some name)) by discriminate.
      cbn [negb andb]. apply bool_decide_eq_false_2. congruence.
  - intros ->. rewrite normalize_formats_lookup, last_with_filter_and.
    f_equal. apply last_with_pointwise. intros f _. unfold str_eqb.
    destruct (f_name f) as [nm |]; cbn [get].
    + case_bool_decide as E1; [injection E1 as -> |]; cbn [negb andb].
      * now rewrite bool_decide_eq_false_2.
      * rewrite !bool_decide_eq_false_2; [reflexivity | discriminate |].
        congruence.
    + cbn [negb andb]. rewrite bool_decide_eq_false_2 by discriminate.
      now rewrite !bool_decide_eq_true_2.
Qed.

(** X18. Copying the format named [name] adds to the catalogue, under
    the name with [" (Copy)"] appended, the normalization of the first
    format of the document with that name; every other name of the
    catalogue is as it was. *)
Theorem clone_copies_first_of_that_name (formats : list RawFormat)
  (name : pystr) (src : RawFormat) :
  List.find (fun f => bool_decide (f_name f = Some name)) formats = Some src ->
  let after := Manage._clone_selected_format formats name in
  let catalogue l := App._normalize_formats {| doc_formats := Some l |} in
  dict_lookup (catalogue after) (name ++ str " (Copy)")
  = Some (snd (App.normalize_entry src))
  /\ forall other, other <> name ++ str " (Copy)" ->
       dict_lookup (catalogue after) other
       = dict_lookup (catalogue formats) other.
Proof.
  intros Hfind after catalogue. subst after catalogue. cbv beta.
  unfold Manage._clone_selected_format. rewrite Hfind.
  apply find_some in Hfind as [_ Hname]. apply bool_decide_eq_true in Hname.
  rewrite Hname. cbn [get]. split.
  - rewrite normalize_formats_lookup, last_with_app. cbn [last_with f_name get].
    unfold str_eqb. now rewrite bool_decide_eq_true_2.
  - intros other Hne.
    rewrite !normalize_formats_lookup, last_with_app.
    cbn [last_with f_name get]. unfold str_eqb.
    now rewrite bool_decide_eq_false_2.
Qed.

Lemma clone_copies_first_of_that_name_witness :
  let formats := [H10301; CSN32] in
  let name := str "CSN - 32-bit (4-byte)" in
  List.find (fun f => bool_decide (f_name f = Some name)) formats = Some CSN32
  /\ (let after := Manage._clone_selected_format formats name in
      let catalogue l := App._normalize_formats {| doc_formats := Some l |} in
      dict_lookup (catalogue after) (name ++ str " (Copy)")
      = Some (snd (App.normalize_entry CSN32))
      /\ forall other, other <> name ++ str " (Copy)" ->
           dict_lookup (catalogue after) other
           = dict_lookup (catalogue formats) other).
Proof.
  intros formats name.
  assert (Hf : List.find (fun f => bool_decide (f_name f = Some name)) formats
               = Some CSN32) by (vm_compute; reflexivity).
  split; [exact Hf |].
  exact (clone_copies_first_of_that_name formats name CSN32 Hf).
Defined.

(** ** Calculate *)

Lemma use_bits_window (mode b : pystr) (L : Z) :
  bitstring b -> 0 < L -> L <= len b ->
  bitstring (App.use_bits mode b L) /\ len (App.use_bits mode b L) = L.
Proof.
  intros Hb HL Hlen. unfold App.use_bits.
  destruct (str_eqb mode (str "left")); (split; [now apply slice_Forall |]).
  - unfold slice, adjust_index, len in *.
    destruct (Z.ltb_spec L 0); [lia |].
    rewrite length_take, length_drop. lia.
  - unfold slice, adjust_index, len in *.
    destruct (Z.ltb_spec (- L) 0); [| lia].
    rewrite length_take, length_drop. lia.
Qed.

Lemma on_calculate_rendered (FORMATS : list (pystr * Format))
  (show_fails : bool) (mode input : pystr) (calls : list App.RenderCall) :
  App.on_calculate FORMATS show_fails mode input = App.Rendered calls ->
  exists b,
    process_input input = (Some b, None)
    /\ calls
       = App.render_exact show_fails b (fst (App._detect_formats FORMATS b))
         ++ App.render_compatible show_fails mode b
              (snd (App._detect_formats FORMATS b)).
Proof.
  unfold App.on_calculate.
  destruct (process_input_cases input)
    as [[_ Hp] | [(_ & _ & b & _ & Hp) | (_ & _ & Hp)]]; rewrite Hp;
    intros H; [exists (cleaned input) | exists b | discriminate H].
  all: destruct (App._detect_formats FORMATS _) as [[| ? ?] [| ? ?]];
    try discriminate H; injection H as <-; split; reflexivity.
Qed.

(** X19. Whatever the options, every format that Calculate renders
    comes from the catalogue and, when its bit length is positive, is
    rendered with a bit string of exactly that many bits. *)
Theorem calculate_renders_full_windows (FORMATS : list (pystr * Format))
  (show_fails : bool) (mode input : pystr) (calls : list App.RenderCall)
  (c : App.RenderCall) :
  App.on_calculate FORMATS show_fails mode input = App.Rendered calls ->
  In c calls ->
  (exists name, In (name, App.rc_fmt c) FORMATS)
  /\ (0 < bit_length (App.rc_fmt c) ->
      bitstring (App.rc_bits c)
      /\ len (App.rc_bits c) = bit_length (App.rc_fmt c)).
Proof.
  intros Hcalc Hc.
  destruct (on_calculate_rendered _ _ _ _ _ Hcalc) as (b & Hp & ->).
  destruct (process_input_bits input b Hp) as [_ Hb].
  rewrite detect_formats_filter in Hc. cbn [fst snd] in Hc.
  apply in_app_iff in Hc as [Hc | Hc].
  - apply render_exact_bits in Hc as [Hbits [name Hin]].
    apply filter_In in Hin as [Hin HL]. apply Z.eqb_eq in HL.
    cbn [snd] in HL.
    split; [eauto |]. intros _. rewrite Hbits. split; [assumption | lia].
  - apply render_compatible_bits in Hc as [Hbits [name Hin]].
    apply filter_In in Hin as [Hin HL]. apply Z.ltb_lt in HL.
    cbn [snd] in HL.
    split; [eauto |]. intros Hpos. rewrite Hbits.
    apply use_bits_window; [assumption | assumption | lia].
Qed.

Lemma calculate_renders_full_windows_witness :
  let FORMATS := App._normalize_formats DEFAULT_FORMATS in
  let c :=
    {| App.rc_bits := str "10110000000010000000000000";
       App.rc_name := str "H10301 - 26-bit (leftmost)";
       App.rc_fmt := snd (App.normalize_entry H10301) |} in
  App.on_calculate FORMATS true (str "left") payload30 = App.Rendered [c]
  /\ In c [c]
  /\ (exists name, In (name, App.rc_fmt c) FORMATS)
  /\ (0 < bit_length (App.rc_fmt c) ->
      bitstring (App.rc_bits c)
      /\ len (App.rc_bits c) = bit_length (App.rc_fmt c)).
Proof.
  intros FORMATS c.
  assert (H1 : App.on_calculate FORMATS true (str "left") payload30
               = App.Rendered [c]) by (vm_compute; reflexivity).
  assert (H2 : In c [c]) by (now left).
  split; [exact H1 |]. split; [exact H2 |].
  exact (calculate_renders_full_windows FORMATS true (str "left") payload30
           [c] c H1 H2).
Defined.

Lemma filter_nil_iff {A} (f : A -> bool) (l : list A) :
  List.filter f l = [] <-> forall x, In x l -> f x = false.
Proof.
  induction l as [| a t IH]; cbn [List.filter]; [easy |].
  destruct (f a) eqn:E; split.
  - discriminate.
  - intros H. rewrite (H a (or_introl eq_refl)) in E. discriminate.
  - intros Ht x [<- | Hx]; [assumption | now apply IH].
  - intros H. apply IH. intros x Hx. apply H. now right.
Qed.

(** X20. Calculate reports that no format matches exactly when the
    input is valid and every format of the catalogue is longer than the
    input. *)
Theorem calculate_no_match_iff (FORMATS : list (pystr * Format))
  (show_fails : bool) (mode input : pystr) :
  App.on_calculate FORMATS show_fails mode input = App.NoMatch
  <-> exists b,
        process_input input = (Some b, None)
        /\ forall it, In it FORMATS -> len b < bit_length (snd it).
Proof.
  unfold App.on_calculate.
  assert (Hdet : forall b,
             (let '(exact, compatible) := App._detect_formats FORMATS b in
              match exact, compatible with
              | [], [] => App.NoMatch
              | _, _ =>
                  App.Rendered
                    (App.render_exact show_fails b exact
                     ++ App.render_compatible show_fails mode b compatible)
              end) = App.NoMatch
             <-> forall it, In it FORMATS -> len b < bit_length (snd it)).
  { intros b. rewrite detect_formats_filter. split.
    - intros H it Hit.
      destruct (List.filter _ FORMATS) as [| ? ?] eqn:E1; [| discriminate H].
      destruct (List.filter (fun it => bit_length (snd it) <? len b) FORMATS)
        as [| ? ?] eqn:E2; [| discriminate H].
      pose proof (proj1 (filter_nil_iff _ _) E1 it Hit) as H1.
      pose proof (proj1 (filter_nil_iff _ _) E2 it Hit) as H2.
      cbv beta in H1, H2. apply Z.eqb_neq in H1. apply Z.ltb_ge in H2. lia.
    - intros H.
      rewrite (proj2 (filter_nil_iff (fun it => bit_length (snd it) =? len b)
                        FORMATS))
        by (intros it Hit; apply Z.eqb_neq; specialize (H it Hit); lia).
      rewrite (proj2 (filter_nil_iff (fun it => bit_length (snd it) <? len b)
                        FORMATS))
        by (intros it Hit; apply Z.ltb_ge; specialize (H it Hit); lia).
      reflexivity. }
  destruct (process_input_cases input)
    as [[_ Hp] | [(_ & _ & b & _ & Hp) | (_ & _ & Hp)]]; rewrite Hp.
  - rewrite Hdet. split; [eauto |]. now intros (b & [= <-] & H).
  - rewrite Hdet. split; [eauto |]. now intros (b' & [= <-] & H).
  - split; [discriminate |]. intros (b & Hb & _). discriminate Hb.
Qed.

(** ** Grouping bits for display *)

Lemma remove_char_app (c : ascii) (x y : pystr) :
  remove_char c (x ++ y) = remove_char c x ++ remove_char c y.
Proof.
  induction x as [| a t IH]; [reflexivity |]. cbn [app remove_char].
  destruct (Ascii.eqb a c); cbn [app]; now rewrite IH.
Qed.

Lemma remove_space_join (l : list pystr) :
  remove_char " " (join (str " ") l) = remove_char " " (concat l).
Proof.
  induction l as [| x t IH]; [reflexivity |]. cbn [join concat].
  destruct t as [| y t'].
  - cbn [concat]. now rewrite app_nil_r.
  - rewrite !remove_char_app, IH. reflexivity.
Qed.

Lemma pieces_concat (fuel width : nat) :
  (0 < width)%nat ->
  forall text, (length text <= fuel)%nat ->
  concat (pieces fuel width text) = text.
Proof.
  intros Hw. induction fuel as [| fuel IH]; intros text Hlen.
  - destruct text; [reflexivity | cbn [length] in Hlen; lia].
  - destruct text as [| c t]; [reflexivity |]. cbn [pieces concat].
    rewrite IH; [apply take_drop |].
    rewrite length_drop. cbn [length] in *. lia.
Qed.

Lemma bitstring_no_space (s : pystr) :
  bitstring s -> remove_char " " s = s.
Proof.
  intros Hs. apply remove_char_absent.
  eapply Forall_impl; [exact Hs |]. now intros c [-> | ->].
Qed.

Lemma bitstring_single_word (s : pystr) :
  bitstring s -> single_word s = true.
Proof.
  intros Hs. apply forallb_forall. intros c Hc.
  apply (proj1 (List.Forall_forall _ _) Hs) in Hc. now destruct Hc as [-> | ->].
Qed.

(** X21. Grouping a bit string for display only inserts spaces: with
    the spaces removed, the grouped text is the bit string again. *)
Theorem grouping_keeps_the_bits (b : pystr) (group : Z) :
  bitstring b ->
  exists out,
    format_binary_groups b group = Some out /\ remove_char " " out = b.
Proof.
  intros Hb. unfold format_binary_groups.
  destruct (Z.leb_spec group 0) as [Hg | Hg].
  { exists b. split; [reflexivity | now apply bitstring_no_space]. }
  pose proof (len_nonneg b) as Hn.
  pose proof (Z.mod_pos_bound (len b) group Hg) as Hrem.
  pose proof (Z.mod_le (len b) group Hn Hg) as Hle.
  set (rem := len b mod group) in *.
  assert (Hrest : slice b (Some rem) None = drop (Z.to_nat rem) b)
    by (apply slice_from; lia).
  assert (Hlead : slice b None (Some rem) = take (Z.to_nat rem) b).
  { unfold slice, adjust_index. destruct (Z.ltb_spec rem 0); [lia |].
    rewrite Z.min_l by lia. cbn [drop Z.to_nat]. f_equal. lia. }
  rewrite Hrest, Hlead.
  destruct (drop (Z.to_nat rem) b) as [| c t] eqn:Ed.
  { exists b. split; [reflexivity | now apply bitstring_no_space]. }
  assert (Hr : bitstring (c :: t))
    by (rewrite <- Ed; now apply Forall_drop).
  unfold wrap. rewrite (bitstring_single_word _ Hr).
  rewrite (proj2 (Z.ltb_lt 0 group) Hg). cbn [andb].
  eexists. split; [reflexivity |].
  rewrite remove_char_app, remove_space_join.
  rewrite pieces_concat by lia.
  rewrite (bitstring_no_space _ Hr), <- Ed.
  destruct (Z.eqb_spec rem 0) as [E0 | _].
  - cbn [remove_char app]. rewrite E0. reflexivity.
  - rewrite remove_char_app, bitstring_no_space by (now apply Forall_take).
    cbn [remove_char str list_ascii_of_string]. cbn.
    rewrite app_nil_r. apply take_drop.
Qed.

Lemma grouping_keeps_the_bits_witness :
  bitstring payload30
  /\ exists out,
       format_binary_groups payload30 4 = Some out
       /\ remove_char " " out = payload30.
Proof.
  assert (Hb : bitstring payload30) by (apply bitstring_digits; reflexivity).
  split; [exact Hb |]. exact (grouping_keeps_the_bits payload30 4 Hb).
Defined.

(** The 30-bit sample in groups of four, the two leftover bits first. *)
Example grouping_sample :
  format_binary_groups payload30 4
  = Some (str "10 1100 0000 0010 0000 0000 0000 1101").
Proof. vm_compute. reflexivity. Qed.
